(** * Adventure Time: the neighborhood globe and its data route

    A shallow embedding of
      - [src/pages/neighborhood/globe.js]: [latLonToVec3], the frame
        callback of [BlinkingDot], and [AirportDots] with its local
        helper [calculateOffsetPosition]; the fragment shader of the
        globe; the loading text and the fetched state of [GlobePage];
      - the list page [Neighborhood]: its fetch, its name filter, its
        sort and the text of its links;
      - the API route [getNeighborsSecurely] ([handler]).

    JavaScript values are embedded as an inductive type, exceptions as an
    error monad, the in-place [THREE.Vector3] arithmetic as a state monad
    over a store of vectors.

    Numbers.  The trigonometric code cannot be evaluated on IEEE doubles
    inside Rocq, so a JavaScript number is idealised as an exact real
    number or [NaN]: rounding, overflow, infinities and the sign of zero
    are outside the model.

    Text.  [String.prototype.toUpperCase] follows the case tables of
    Unicode, which the model does not contain: the code that upper-cases
    is embedded over an arbitrary function [upcase] on strings, and what
    is proved of it holds for every such function.  The examples use that
    upper-casing text in ASCII changes the letters a to z and nothing
    else.  A string of the model lists the characters of text in ASCII;
    the length and the indices of other text are outside the model. *)

From Stdlib Require Import Reals Lra Lia List String Ascii Bool Arith NArith ZArith.
From Stdlib Require Import DecimalString Sorted Permutation.
Import ListNotations.

#[local] Set Warnings "-register-all".

(* ================================================================== *)
(** * JavaScript values                                                *)
(* ================================================================== *)

Module JS.

(** ** Numbers *)

Inductive number : Type :=
| NaN
| Num (x : R).

Arguments Num x%_R.

Definition lift1 (f : R -> R) (a : number) : number :=
  match a with
  | Num x => Num (f x)
  | NaN => NaN
  end.

Definition lift2 (f : R -> R -> R) (a b : number) : number :=
  match a, b with
  | Num x, Num y => Num (f x y)
  | _, _ => NaN
  end.

Definition nadd := lift2 Rplus.
Definition nsub := lift2 Rminus.
Definition nmul := lift2 Rmult.
Definition nneg := lift1 Ropp.

(** [a / b].  A zero divisor gives an infinity or [NaN] in JavaScript; the
    model has no infinities and answers [NaN]. *)
Definition ndiv (a b : number) : number :=
  match a, b with
  | Num x, Num y => if Req_dec_T y 0 then NaN else Num (x / y)
  | _, _ => NaN
  end.

Definition of_nat (n : nat) : number := Num (INR n).

Declare Scope js_scope.
Delimit Scope js_scope with js.
Bind Scope js_scope with number.
Notation "a + b" := (nadd a b) : js_scope.
Notation "a - b" := (nsub a b) : js_scope.
Notation "a * b" := (nmul a b) : js_scope.
Notation "a / b" := (ndiv a b) : js_scope.
Notation "- a" := (nneg a) : js_scope.

(** The [Math] object. *)
Module Math.
Definition PI : number := Num Rtrigo1.PI.
Definition sin : number -> number := lift1 Rtrigo_def.sin.
Definition cos : number -> number := lift1 Rtrigo_def.cos.
Definition abs : number -> number := lift1 Rabs.
Definition sqrt (a : number) : number :=
  match a with
  | Num x => if Rle_dec 0 x then Num (R_sqrt.sqrt x) else NaN
  | NaN => NaN
  end.
(** [Math.round]: nearest integer, halves towards plus infinity. *)
Definition round (a : number) : number :=
  match a with
  | Num x => Num (IZR (Int_part (x + / 2)))
  | NaN => NaN
  end.
End Math.

(** [a >= b]: false as soon as one side is [NaN]. *)
Definition nge (a b : number) : bool :=
  match a, b with
  | Num x, Num y => if Rge_dec x y then true else false
  | _, _ => false
  end.

(** ** Values *)

Inductive value : Type :=
| VUndefined
| VNull
| VBool (b : bool)
| VNum (n : number)
| VStr (s : string)
| VArr (elems : list value)
| VObj (props : list (string * value)).

(** A property list holds the own enumerable properties of an ordinary
    object in the order in which [Object.keys], [Object.values] and
    [Object.entries] visit them. *)
Definition props (A : Type) : Type := list (string * A).
Definition object : Type := props value.

(** ToBoolean. *)
Definition truthy (v : value) : bool :=
  match v with
  | VUndefined | VNull => false
  | VBool b => b
  | VNum NaN => false
  | VNum (Num x) => if Req_dec_T x 0 then false else true
  | VStr s => negb (String.eqb s EmptyString)
  | VArr _ | VObj _ => true
  end.

Definition nullish (v : value) : bool :=
  match v with
  | VUndefined | VNull => true
  | _ => false
  end.

(** [a || b] on values that are already evaluated. *)
Definition or_else (a b : value) : value := if truthy a then a else b.

(** [v === s] where [s] is a string. *)
Definition strict_eq_str (v : value) (s : string) : bool :=
  match v with
  | VStr t => String.eqb t s
  | _ => false
  end.

(** ** Exceptions *)

Inductive exn : Type :=
| TypeError.

Inductive completion (A : Type) : Type :=
| Normal (a : A)
| Throw (e : exn).

Arguments Normal {A} a.
Arguments Throw {A} e.

Definition bind {A B} (m : completion A) (k : A -> completion B) : completion B :=
  match m with
  | Normal a => k a
  | Throw e => Throw e
  end.

Notation "x <- m ;; k" := (bind m (fun x => k))
  (at level 61, m at next level, right associativity).

(** ** Strings *)

Section Case.

(** The upper-casing of a string, [String.prototype.toUpperCase] on a
    string receiver.  Its results hold none of the letters a to z. *)
Variable upcase : string -> string.

(** [v.toUpperCase()]: only a string has the method; a property read on
    [null] or [undefined] and a call of a non-function both throw. *)
Definition toUpperCase (v : value) : completion string :=
  match v with
  | VStr s => Normal (upcase s)
  | _ => Throw TypeError
  end.

(** [v?.toUpperCase()]. *)
Definition opt_toUpperCase (v : value) : completion value :=
  if nullish v then Normal VUndefined
  else s <- toUpperCase v ;; Normal (VStr s).

End Case.

(** Upper-casing on text in ASCII: the letters a to z become A to Z, the
    other characters stay. *)
Definition upper_ascii (c : ascii) : ascii :=
  let n := nat_of_ascii c in
  if (97 <=? n)%nat && (n <=? 122)%nat then ascii_of_nat (n - 32) else c.

Fixpoint upper (s : string) : string :=
  match s with
  | EmptyString => EmptyString
  | String c s' => String (upper_ascii c) (upper s')
  end.

Fixpoint ascii_only (s : string) : bool :=
  match s with
  | EmptyString => true
  | String c s' => (nat_of_ascii c <? 128)%nat && ascii_only s'
  end.

(** [upcase] does on text in ASCII what [toUpperCase] does there. *)
Definition ascii_upper (upcase : string -> string) : Prop :=
  forall s, ascii_only s = true -> upcase s = upper s.

(** ** Property keys *)

Definition digit_of (c : ascii) : option N :=
  let n := N_of_ascii c in
  if (48 <=? n)%N && (n <=? 57)%N then Some (n - 48)%N else None.

Fixpoint parse_digits (s : string) (acc : N) : option N :=
  match s with
  | EmptyString => Some acc
  | String c s' =>
      match digit_of c with
      | Some d => parse_digits s' (10 * acc + d)%N
      | None => None
      end
  end.

(** An array index is the canonical decimal spelling of an integer below
    2^32 - 1. *)
Definition array_index (s : string) : option N :=
  match s with
  | EmptyString => None
  | String "0"%char EmptyString => Some 0%N
  | String "0"%char _ => None
  | _ =>
      match parse_digits s 0 with
      | Some n => if (n <? 4294967295)%N then Some n else None
      | None => None
      end
  end.

Fixpoint lookup {A} (k : string) (o : props A) : option A :=
  match o with
  | [] => None
  | (k', v) :: o' => if String.eqb k' k then Some v else lookup k o'
  end.

Definition char_at (s : string) (i : nat) : value :=
  match String.get i s with
  | Some c => VStr (String c EmptyString)
  | None => VUndefined
  end.

(** [v[k]] for the data properties of a value: own properties of an
    object, elements and [length] of an array, characters and [length] of
    a string.  Methods inherited from the prototypes are not data and are
    reached through [toUpperCase] above. *)
Definition Get (v : value) (k : string) : completion value :=
  match v with
  | VUndefined | VNull => Throw TypeError
  | VBool _ | VNum _ => Normal VUndefined
  | VStr s =>
      match array_index k with
      | Some i => Normal (char_at s (N.to_nat i))
      | None =>
          if String.eqb k "length" then Normal (VNum (of_nat (String.length s)))
          else Normal VUndefined
      end
  | VArr l =>
      match array_index k with
      | Some i => Normal (nth (N.to_nat i) l VUndefined)
      | None =>
          if String.eqb k "length" then Normal (VNum (of_nat (List.length l)))
          else Normal VUndefined
      end
  | VObj o =>
      match lookup k o with
      | Some w => Normal w
      | None => Normal VUndefined
      end
  end.

(** [v?.[k]] and [v?.k]. *)
Definition opt_Get (v : value) (k : string) : completion value :=
  if nullish v then Normal VUndefined else Get v k.

(** [o[k] = v] on an ordinary object.  A new key that is an array index
    is enumerated before every string key and in ascending numeric order;
    any other new key goes last. *)
Fixpoint insert_index {A} (n : N) (k : string) (v : A) (o : props A) : props A :=
  match o with
  | [] => [(k, v)]
  | (k', v') :: o' =>
      match array_index k' with
      | Some m => if (m <? n)%N then (k', v') :: insert_index n k v o'
                  else (k, v) :: o
      | None => (k, v) :: o
      end
  end.

Fixpoint replace {A} (k : string) (v : A) (o : props A) : props A :=
  match o with
  | [] => []
  | (k', v') :: o' =>
      if String.eqb k' k then (k', v) :: o' else (k', v') :: replace k v o'
  end.

Definition Set_ {A} (o : props A) (k : string) (v : A) : props A :=
  match lookup k o with
  | Some _ => replace k v o
  | None =>
      match array_index k with
      | Some n => insert_index n k v o
      | None => o ++ [(k, v)]
      end
  end.

(** [Object.values] and [Object.entries]. *)
Fixpoint indexed (i : nat) (l : list value) : object :=
  match l with
  | [] => []
  | v :: l' => (NilZero.string_of_uint (Nat.to_uint i), v) :: indexed (S i) l'
  end.

Fixpoint chars (s : string) : list value :=
  match s with
  | EmptyString => []
  | String c s' => VStr (String c EmptyString) :: chars s'
  end.

Definition Object_entries (v : value) : completion object :=
  match v with
  | VUndefined | VNull => Throw TypeError
  | VBool _ | VNum _ => Normal []
  | VStr s => Normal (indexed 0 (chars s))
  | VArr l => Normal (indexed 0 l)
  | VObj o => Normal o
  end.

Definition Object_values (v : value) : completion (list value) :=
  o <- Object_entries v ;; Normal (map snd o).

(** ** ToNumber *)

Section Conversions.

(** The two conversions that read a number out of text stay abstract:
    [StringToNumber] is the numeric-literal grammar of the language,
    and an array or object is converted by way of its string form. *)
Variable StringToNumber : string -> number.
Variable ObjectToNumber : value -> number.

Definition ToNumber (v : value) : number :=
  match v with
  | VUndefined => NaN
  | VNull => Num 0
  | VBool true => Num 1
  | VBool false => Num 0
  | VNum n => n
  | VStr s => StringToNumber s
  | VArr _ | VObj _ => ObjectToNumber v
  end.

(** [v >= n] for a number [n]. *)
Definition ge_num (v : value) (n : number) : bool := nge (ToNumber v) n.

End Conversions.

End JS.

Import JS.
Local Open Scope string_scope.
Local Open Scope list_scope.

(* ================================================================== *)
(** * [THREE.Vector3]                                                  *)
(* ================================================================== *)

(** The methods of three.js that the page calls.  All of them except
    [clone], [dot] and [length] overwrite the receiver and return it, so
    vectors live in a store and the methods are store transformers. *)
Module Vector3.

Record vec : Type := mk { x : number; y : number; z : number }.

Definition ref := nat.

Record store : Type := { next : ref; cell : ref -> vec }.

Definition empty : store :=
  {| next := 0; cell := fun _ => mk NaN NaN NaN |}.

Definition St (A : Type) : Type := store -> A * store.

Definition ret {A} (a : A) : St A := fun h => (a, h).

Definition bind {A B} (m : St A) (k : A -> St B) : St B :=
  fun h => let (a, h') := m h in k a h'.

Notation "x <~ m ;; k" := (bind m (fun x => k))
  (at level 61, m at next level, right associativity).

Definition run {A} (m : St A) : A := fst (m empty).

(** The two store updates: a fresh cell, and a cell overwritten. *)
Definition alloc (v : vec) (h : store) : store :=
  {| next := S (next h);
     cell := fun r' => if Nat.eqb r' (next h) then v else cell h r' |}.

Definition upd (r : ref) (v : vec) (h : store) : store :=
  {| next := next h;
     cell := fun r' => if Nat.eqb r' r then v else cell h r' |}.

Definition read (r : ref) : St vec := fun h => (cell h r, h).

Definition write (r : ref) (v : vec) : St unit := fun h => (tt, upd r v h).

(** [new THREE.Vector3(x, y, z)] *)
Definition new (v : vec) : St ref := fun h => (next h, alloc v h).

(** [clone() { return new this.constructor(this.x, this.y, this.z) }] *)
Definition clone (this : ref) : St ref :=
  v <~ read this ;; new (mk (x v) (y v) (z v)).

(** [length() { return Math.sqrt(x*x + y*y + z*z) }] *)
Definition length (this : ref) : St number :=
  v <~ read this ;;
  ret (Math.sqrt (x v * x v + y v * y v + z v * z v)%js).

(** [dot(v) { return this.x*v.x + this.y*v.y + this.z*v.z }] *)
Definition dot (this v : ref) : St number :=
  a <~ read this ;;
  b <~ read v ;;
  ret (x a * x b + y a * y b + z a * z b)%js.

(** [multiplyScalar(s) { this.x *= s; this.y *= s; this.z *= s; return this }] *)
Definition multiplyScalar (this : ref) (s : number) : St ref :=
  a <~ read this ;;
  _ <~ write this (mk (x a * s) (y a * s) (z a * s))%js ;;
  ret this.

(** [divideScalar(s) { return this.multiplyScalar(1 / s) }] *)
Definition divideScalar (this : ref) (s : number) : St ref :=
  multiplyScalar this (Num 1 / s)%js.

(** [normalize() { return this.divideScalar(this.length() || 1) }] *)
Definition normalize (this : ref) : St ref :=
  l <~ length this ;;
  divideScalar this (if truthy (VNum l) then l else Num 1).

(** [sub(v) { this.x -= v.x; this.y -= v.y; this.z -= v.z; return this }] *)
Definition sub (this v : ref) : St ref :=
  a <~ read this ;;
  b <~ read v ;;
  _ <~ write this (mk (x a - x b) (y a - y b) (z a - z b))%js ;;
  ret this.

(** [add(v) { this.x += v.x; this.y += v.y; this.z += v.z; return this }] *)
Definition add (this v : ref) : St ref :=
  a <~ read this ;;
  b <~ read v ;;
  _ <~ write this (mk (x a + x b) (y a + y b) (z a + z b))%js ;;
  ret this.

End Vector3.

(* ================================================================== *)
(** * [pages/neighborhood/globe.js]                                    *)
(* ================================================================== *)

Module Globe.

Import Vector3.

(** A position is the three-element array [[x, y, z]]. *)
Definition position : Type := (number * number * number)%type.

(** [function latLonToVec3(lat, lon, radius = 1.001)] *)
Definition latLonToVec3 (lat lon radius : number) : position :=
  let phi := ((Num 90 - lat) * (Math.PI / Num 180))%js in
  let theta := ((lon + Num 180) * (Math.PI / Num 180))%js in
  ((- radius * Math.sin phi * Math.cos theta)%js,
   (radius * Math.cos phi)%js,
   (radius * Math.sin phi * Math.sin theta)%js).

Definition default_radius : number := Num 1.001.

(** [const calculateOffsetPosition = (basePosition, index, total) => ...].
    [index] and [total] are an array index and an array length.  The
    receiver of a call is evaluated before its arguments, which fixes the
    order of the allocations. *)
Definition calculateOffsetPosition (basePosition : position) (index total : nat)
  : St position :=
  if (total <=? 1)%nat then ret basePosition
  else
    let angle := (of_nat index / of_nat total * Math.PI * Num 2)%js in
    let radius := Num 0.01 in
    let offsetX := (Math.cos angle * radius)%js in
    let offsetZ := (Math.sin angle * radius)%js in
    let '(bx, by_, bz) := basePosition in
    pos <~ new (mk bx by_ bz) ;;
    offset <~ new (mk offsetX (Num 0) offsetZ) ;;
    normal <~ (c <~ clone pos ;; normalize c) ;;
    tangent <~ (c <~ clone offset ;;
                d <~ dot offset normal ;;
                n <~ multiplyScalar normal d ;;
                sub c n) ;;
    finalPos <~ (c <~ clone pos ;; c <~ add c tangent ;; normalize c) ;;
    v <~ read finalPos ;;
    ret (x v, y v, z v).

(** ** [BlinkingDot] *)

(** The [baseSize] of the frame callback. *)
Definition baseSize (color : string) : number :=
  if String.eqb color "red" then Num 0.0075
  else if String.eqb color "#ffff00" then Num 0.0105
  else Num 0.015.

(** [Math.abs(Math.sin(t * 2))] *)
Definition blink_scale (t : number) : number :=
  Math.abs (Math.sin (t * Num 2)%js).

(** The callback given to [useFrame].  [t] is [clock.getElapsedTime()],
    [current] is [meshRef.current], here the [scale] vector of the mesh
    when the ref is set; the result is that vector after the frame. *)
Definition useFrame_callback (color : string) (t : number) (current : option vec)
  : option vec :=
  let scale := blink_scale t in
  match current with
  | Some _ =>
      let baseSize := baseSize color in
      Some (mk (scale * baseSize) (scale * baseSize) (scale * baseSize))%js
  | None => None
  end.

(** The props of one [<BlinkingDot .../>] element.  [onClick] is kept as
    the neighbor whose [slackId] the handler pushes to the router when it
    is called. *)
Record BlinkingDot : Type := {
  key : value;
  pos : position;
  onClick : value;
  interactive : bool;
  color : string
}.

(** ** [AirportDots] *)

(** [array.reduce(f, init)] with a callback that may throw. *)
Fixpoint reduce {A B} (f : A -> B -> completion A) (l : list B) (init : A)
  : completion A :=
  match l with
  | [] => Normal init
  | b :: l' => acc <- f init b ;; reduce f l' acc
  end.

(** [array.map(f)] with a callback that may throw; the callback also
    receives the index. *)
Fixpoint map_from {A B} (i : nat) (f : A -> nat -> completion B) (l : list A)
  : completion (list B) :=
  match l with
  | [] => Normal []
  | a :: l' => b <- f a i ;; bs <- map_from (S i) f l' ;; Normal (b :: bs)
  end.

Definition array_map {A B} (f : A -> nat -> completion B) (l : list A)
  : completion (list B) :=
  map_from 0 f l.

(** [array.find(p)]: the first element on which [p] is truthy, else
    [undefined]. *)
Fixpoint array_find (p : value -> completion bool) (l : list value)
  : completion value :=
  match l with
  | [] => Normal VUndefined
  | a :: l' => b <- p a ;; if b then Normal a else array_find p l'
  end.

(** The groups: an object from upper-case code to the array of the
    neighbors with that code.  An upper-cased key is never the name of a
    property inherited from [Object.prototype], so [groups[code]] reads
    own properties only. *)
Definition Groups : Type := props (list value).

Section AirportDots.

Variable upcase : string -> string.
Variable StringToNumber : string -> number.
Variable ObjectToNumber : value -> number.

Let Number := ToNumber StringToNumber ObjectToNumber.

(** The callback of [neighbors.reduce]. *)
Definition group_neighbor (groups : Groups) (neighbor : value) : completion Groups :=
  airport <- Get neighbor "airport" ;;
  if negb (truthy airport) then Normal groups
  else
    code <- toUpperCase upcase airport ;;
    let groups :=
      match lookup code groups with
      | None => Set_ groups code []
      | Some _ => groups
      end in
    match lookup code groups with
    | Some members => Normal (Set_ groups code (members ++ [neighbor]))
    | None => Throw TypeError
    end.

Definition airportGroups (neighbors : list value) : completion Groups :=
  reduce group_neighbor neighbors [].

(** The predicate given to [find]:
    [a.iata?.toUpperCase() === code || a.icao?.toUpperCase() === code] *)
Definition airport_matches (code : string) (a : value) : completion bool :=
  iata <- Get a "iata" ;;
  iata <- opt_toUpperCase upcase iata ;;
  if strict_eq_str iata code then Normal true
  else
    icao <- Get a "icao" ;;
    icao <- opt_toUpperCase upcase icao ;;
    Normal (strict_eq_str icao code).

Definition find_airport (airportsData : value) (code : string) : completion value :=
  airports <- Object_values airportsData ;;
  array_find (airport_matches code) airports.

(** The [color] prop. *)
Definition dot_color (neighbor : value) : completion string :=
  approved <- Get neighbor "approvedFlightStipend" ;;
  if truthy approved then Normal "#00ff00"
  else
    hours <- Get neighbor "totalTimeHackatimeHours" ;;
    if ge_num StringToNumber ObjectToNumber hours (Num 100)
    then Normal "#ffff00"
    else Normal "red".

(** One [<BlinkingDot .../>]. *)
Definition blinking_dot (basePosition : position) (total : nat) (neighbor : value)
           (index : nat) : completion BlinkingDot :=
  slackId <- Get neighbor "slackId" ;;
  let p := run (calculateOffsetPosition basePosition index total) in
  c <- dot_color neighbor ;;
  Normal {| key := slackId; pos := p; onClick := neighbor;
            interactive := true; color := c |}.

(** The callback of [Object.entries(airportGroups).map]: [None] is
    [null]. *)
Definition group_dots (airportsData : value) (entry : string * list value)
  : completion (option (list BlinkingDot)) :=
  let '(code, airportNeighbors) := entry in
  airport <- find_airport airportsData code ;;
  if negb (truthy airport) then Normal None
  else
    lat <- Get airport "lat" ;;
    if negb (truthy lat) then Normal None
    else
      lon <- Get airport "lon" ;;
      if negb (truthy lon) then Normal None
      else
        let basePosition := latLonToVec3 (Number lat) (Number lon) default_radius in
        ds <- array_map (blinking_dot basePosition (List.length airportNeighbors))
                        airportNeighbors ;;
        Normal (Some ds).

(** [.flat()]: an array among the elements is spliced in, [null] stays. *)
Fixpoint flat (l : list (option (list BlinkingDot))) : list (option BlinkingDot) :=
  match l with
  | [] => []
  | None :: l' => None :: flat l'
  | Some ds :: l' => map Some ds ++ flat l'
  end.

(** [.filter(Boolean)]: an element is an object, hence truthy. *)
Fixpoint filter_Boolean (l : list (option BlinkingDot)) : list BlinkingDot :=
  match l with
  | [] => []
  | None :: l' => filter_Boolean l'
  | Some d :: l' => d :: filter_Boolean l'
  end.

(** [function AirportDots({ neighbors, airportsData })] *)
Definition AirportDots (neighbors : list value) (airportsData : value)
  : completion (list BlinkingDot) :=
  groups <- airportGroups neighbors ;;
  per_group <- array_map (fun entry _ => group_dots airportsData entry)
                         groups ;;
  Normal (filter_Boolean (flat per_group)).

End AirportDots.

End Globe.

(* ================================================================== *)
(** * The API route [getNeighborsSecurely]                             *)
(* ================================================================== *)

Module Api.

(** An Airtable record: its [id] and its [fields] object. *)
Record record : Type := { id : string; fields : object }.

Record response : Type := { status : nat; body : value }.

Section Handler.

Variable StringToNumber : string -> number.
Variable ObjectToNumber : value -> number.

(** The callback of [neighborRecords.map]. *)
Definition neighbor_of_record (record : record) : completion value :=
  let fields := VObj (fields record) in
  pfp <- (a <- Get fields "Pfp (from slackNeighbor)" ;;
          a0 <- opt_Get a "0" ;;
          url <- opt_Get a0 "url" ;;
          Normal (or_else url VNull)) ;;
  slackId <- (v <- Get fields "Slack ID (from slackNeighbor)" ;;
              Normal (or_else v VNull)) ;;
  slackFullName <- (v <- Get fields "Full Name (from slackNeighbor)" ;;
                    Normal (or_else v VNull)) ;;
  githubUsername <- (v <- Get fields "githubUsername" ;;
                     Normal (or_else v VNull)) ;;
  totalTimeCombinedHours <- (v <- Get fields "totalTimeCombinedHours" ;;
                             Normal (or_else v (VNum (Num 0)))) ;;
  totalTimeHackatimeHours <-
    (v <- Get fields "totalTimeHackatimeHours" ;;
     Normal (VNum (Math.round (ToNumber StringToNumber ObjectToNumber
                                        (or_else v (VNum (Num 0))))))) ;;
  totalTimeStopwatchHours <- (v <- Get fields "totalTimeStopwatchHours" ;;
                              Normal (or_else v (VNum (Num 0)))) ;;
  fullName <- (v <- Get fields "Full Name" ;; Normal (or_else v VNull)) ;;
  totalCheckedTime <- (v <- Get fields "totalCheckedTime" ;;
                       Normal (or_else v (VNum (Num 0)))) ;;
  airport <- Get fields "airport" ;;
  Normal (VObj [ ("id", VStr (id record));
                 ("pfp", pfp);
                 ("slackId", slackId);
                 ("slackFullName", slackFullName);
                 ("githubUsername", githubUsername);
                 ("totalTimeCombinedHours", totalTimeCombinedHours);
                 ("totalTimeHackatimeHours", totalTimeHackatimeHours);
                 ("totalTimeStopwatchHours", totalTimeStopwatchHours);
                 ("fullName", fullName);
                 ("totalCheckedTime", totalCheckedTime);
                 ("airport", airport) ]).

Fixpoint map_records (l : list record) : completion (list value) :=
  match l with
  | [] => Normal []
  | r :: l' =>
      n <- neighbor_of_record r ;; ns <- map_records l' ;; Normal (n :: ns)
  end.

(** [export default async function handler(req, res)].  [method] is
    [req.method]; [neighborRecords] is the outcome of the awaited
    Airtable query, which may reject.  The result is the status and the
    object given to [res.json]. *)
Definition handler (method : string) (neighborRecords : completion (list record))
  : response :=
  if negb (String.eqb method "GET")
  then {| status := 405;
          body := VObj [("message", VStr "Method not allowed")] |}
  else
    match (records <- neighborRecords ;; map_records records) with
    | Normal neighbors =>
        {| status := 200; body := VObj [("neighbors", VArr neighbors)] |}
    | Throw _ =>
        {| status := 500;
           body := VObj [("message", VStr "Error fetching neighbors")] |}
    end.

End Handler.

(** What the page receives: the body after [JSON.stringify] on the server
    and [JSON.parse] in the browser.  A property whose value is
    [undefined] is left out, an [undefined] array element and [NaN] become
    [null]. *)
Fixpoint json (v : value) : value :=
  match v with
  | VNum NaN => VNull
  | VArr l =>
      VArr (map (fun e => match json e with VUndefined => VNull | w => w end) l)
  | VObj o =>
      VObj ((fix go (o : list (string * value)) : list (string * value) :=
               match o with
               | [] => []
               | (k, e) :: o' =>
                   match json e with
                   | VUndefined => go o'
                   | w => (k, w) :: go o'
                   end
               end) o)
  | _ => v
  end.

(** The keys of an object, as [Object.keys] lists them. *)
Definition keys (v : value) : list string :=
  match v with
  | VObj o => map fst o
  | _ => []
  end.

End Api.

(* ================================================================== *)
(** * Geometry used in the statements                                  *)
(* ================================================================== *)

Module Geometry.

Import Globe.

(** Euclidean norm of a position and distance between two positions. *)
Definition norm (p : position) : number :=
  let '(x, y, z) := p in Math.sqrt (x * x + y * y + z * z)%js.

Definition dist (p q : position) : number :=
  let '(x, y, z) := p in
  let '(x', y', z') := q in
  norm ((x - x')%js, (y - y')%js, (z - z')%js).

(** The positions that [AirportDots] gives to a group of [count] dots. *)
Definition offsetPositions (basePosition : position) (count : nat) : list position :=
  map (fun index => Vector3.run (calculateOffsetPosition basePosition index count))
      (seq 0 count).

Definition real_position (x y z : R) : position := (Num x, Num y, Num z).

End Geometry.

(* ================================================================== *)
(** * Vector algebra without the store                                 *)
(* ================================================================== *)

(** What the methods of [Vector3] compute, as functions from vectors to
    vectors.  [offsetPosition] is [calculateOffsetPosition] written with
    them; the two are proved equal on every store below. *)
Module Pure.

Import Vector3 Globe.

Definition scale (a : vec) (s : number) : vec :=
  mk (x a * s) (y a * s) (z a * s)%js.

Definition vdot (a b : vec) : number :=
  (x a * x b + y a * y b + z a * z b)%js.

Definition vsub (a b : vec) : vec :=
  mk (x a - x b) (y a - y b) (z a - z b)%js.

Definition vadd (a b : vec) : vec :=
  mk (x a + x b) (y a + y b) (z a + z b)%js.

Definition vlength (a : vec) : number :=
  Math.sqrt (x a * x a + y a * y a + z a * z a)%js.

Definition vnormalize (a : vec) : vec :=
  let l := vlength a in
  scale a (Num 1 / (if truthy (VNum l) then l else Num 1))%js.

Definition offset_vector (index total : nat) : vec :=
  let angle := (of_nat index / of_nat total * Math.PI * Num 2)%js in
  mk (Math.cos angle * Num 0.01)%js (Num 0) (Math.sin angle * Num 0.01)%js.

Definition offsetPosition (basePosition : position) (index total : nat) : position :=
  if (total <=? 1)%nat then basePosition
  else
    let '(bx, by_, bz) := basePosition in
    let pos := mk bx by_ bz in
    let offset := offset_vector index total in
    let normal := vnormalize pos in
    let tangent := vsub offset (scale normal (vdot offset normal)) in
    let finalPos := vnormalize (vadd pos tangent) in
    (x finalPos, y finalPos, z finalPos).

End Pure.

(* ================================================================== *)
(** * Vocabulary of the statements about persons and records           *)
(* ================================================================== *)

Module Persons.

(** The code under which [group_neighbor] files a neighbor, if any. *)
Definition airport_code (upcase : string -> string) (neighbor : value)
  : option string :=
  match Get neighbor "airport" with
  | Normal (VStr s) => if truthy (VStr s) then Some (upcase s) else None
  | _ => None
  end.

Definition has_code (upcase : string -> string) (code : string) (neighbor : value)
  : bool :=
  match airport_code upcase neighbor with
  | Some c => String.eqb c code
  | None => false
  end.

(** A person as the data model has it: an object whose airport code is a
    string, [null] or missing. *)
Definition well_typed_person (neighbor : value) : bool :=
  match neighbor with
  | VObj o =>
      match lookup "airport" o with
      | None | Some VUndefined | Some VNull | Some (VStr _) => true
      | Some _ => false
      end
  | _ => false
  end.

(** The keys of a neighbor record of the API route, in order. *)
Definition neighbor_keys : list string :=
  [ "id"; "pfp"; "slackId"; "slackFullName"; "githubUsername";
    "totalTimeCombinedHours"; "totalTimeHackatimeHours";
    "totalTimeStopwatchHours"; "fullName"; "totalCheckedTime"; "airport" ].

(** The group that the persons seen so far give to a code, and what it
    means for an object of groups to hold exactly those groups. *)
Definition group_of (upcase : string -> string) (code : string) (seen : list value)
  : option (list value) :=
  match filter (has_code upcase code) seen with
  | [] => None
  | members => Some members
  end.

Definition grouped (upcase : string -> string) (seen : list value)
           (gs : Globe.Groups) : Prop :=
  NoDup (map fst gs) /\ forall code, lookup code gs = group_of upcase code seen.

(** An airport record as the table has it: an object whose [iata] and
    [icao] are strings, [null] or missing. *)
Definition code_field (v : option value) : bool :=
  match v with
  | None | Some VUndefined | Some VNull | Some (VStr _) => true
  | Some _ => false
  end.

Definition airport_record (a : value) : bool :=
  match a with
  | VObj o => code_field (lookup "iata" o) && code_field (lookup "icao" o)
  | _ => false
  end.

(** The airport record [a] goes by [code]: its IATA code or its ICAO
    code is a string that upper-cased is [code]. *)
Definition spells (upcase : string -> string) (code : string) (v : option value)
  : bool :=
  match v with
  | Some (VStr s) => String.eqb (upcase s) code
  | _ => false
  end.

Definition goes_by (upcase : string -> string) (code : string) (a : value) : bool :=
  match a with
  | VObj o => spells upcase code (lookup "iata" o) || spells upcase code (lookup "icao" o)
  | _ => false
  end.

(** The first airport of the table that goes by [code], [undefined] when
    there is none. *)
Definition airport_of (upcase : string -> string) (table : object) (code : string)
  : value :=
  match find (goes_by upcase code) (map snd table) with
  | Some a => a
  | None => VUndefined
  end.

(** A record without the approval flag, in memory and as the page
    receives it: its keys are the eleven above, after serialisation there
    are no others, and either way its dot is not green. *)
Definition plain_record (StringToNumber : string -> number)
           (ObjectToNumber : value -> number) (n : value) : Prop :=
  Api.keys n = neighbor_keys /\
  ~ In "approvedFlightStipend" (Api.keys n) /\
  (exists c, Globe.dot_color StringToNumber ObjectToNumber n = Normal c
             /\ c <> "#00ff00") /\
  incl (Api.keys (Api.json n)) neighbor_keys /\
  (exists c, Globe.dot_color StringToNumber ObjectToNumber (Api.json n) = Normal c
             /\ c <> "#00ff00").

(** ** Example data *)

(** The grouping example: four persons and a table with one airport. *)
Definition p_sfo : value := VObj [("airport", VStr "sfo")].
Definition p_SFO : value := VObj [("airport", VStr "SFO")].
Definition p_null : value := VObj [("airport", VNull)].
Definition p_xyz : value := VObj [("airport", VStr "xyz")].

Definition sfo_record : value :=
  VObj [("iata", VStr "SFO"); ("icao", VStr "KSFO");
        ("lat", VNum (Num 37.62)); ("lon", VNum (Num (-122.38)))].

Definition only_sfo : value := VObj [("KSFO", sfo_record)].

Definition sfo_base : Globe.position :=
  Globe.latLonToVec3 (Num 37.62) (Num (-122.38)) Globe.default_radius.

Definition sfo_dot (neighbor : value) (index : nat) : Globe.BlinkingDot :=
  {| Globe.key := VUndefined;
     Globe.pos := Vector3.run (Globe.calculateOffsetPosition sfo_base index 2);
     Globe.onClick := neighbor;
     Globe.interactive := true;
     Globe.color := "red" |}.

(** An airport table in lower case, and persons who give the IATA and
    the ICAO code in mixed case.  The dot of a group of one sits at the
    position of the airport. *)
Definition lower_sfo_record : value :=
  VObj [("iata", VStr "sfo"); ("icao", VStr "ksfo");
        ("lat", VNum (Num 37.62)); ("lon", VNum (Num (-122.38)))].

Definition only_lower_sfo : value := VObj [("ksfo", lower_sfo_record)].

Definition p_kSFO : value := VObj [("airport", VStr "kSFO")].
Definition p_Sfo : value := VObj [("airport", VStr "Sfo")].

Definition single_dot (neighbor : value) : Globe.BlinkingDot :=
  {| Globe.key := VUndefined;
     Globe.pos := sfo_base;
     Globe.onClick := neighbor;
     Globe.interactive := true;
     Globe.color := "red" |}.

(** The three persons of the classification examples. *)
Definition person (approved : bool) (hours : R) : value :=
  VObj [("approvedFlightStipend", VBool approved);
        ("totalTimeHackatimeHours", VNum (Num hours))].

(** An airport on the equator, and an Airtable row. *)
Definition equator_record : value :=
  VObj [("iata", VStr "UIO"); ("icao", VStr "SEQM");
        ("lat", VNum (Num 0)); ("lon", VNum (Num (-78.36)))].

Definition only_equator : value := VObj [("SEQM", equator_record)].

Definition a_record : Api.record :=
  {| Api.id := "rec1";
     Api.fields := [("totalTimeHackatimeHours", VNum (Num 150));
                    ("airport", VStr "sfo")] |}.

(** A conversion of text to numbers that recognises no literal; the
    examples below read no number out of text. *)
Definition no_literal (s : string) : number := NaN.
Definition no_object_number (v : value) : number := NaN.

End Persons.

(* ================================================================== *)
(** * The fragment shader of the globe                                 *)
(* ================================================================== *)

(** [tricolorShader.fragmentShader].  The floats of the shader are taken
    as real numbers. *)
Module Shader.

Local Open Scope R_scope.

Record vec4 : Type := mk4 { red : R; green : R; blue : R; alpha : R }.

(** [step(edge, x)]: 0 below the edge, 1 from the edge on. *)
Definition step (edge x : R) : R := if Rlt_dec x edge then 0 else 1.

Definition gt (x y : R) : bool := if Rgt_dec x y then true else false.
Definition lt (x y : R) : bool := if Rlt_dec x y then true else false.

(** [void main()]: [color] is [texture2D(uTexture, vUv)], the result is
    [gl_FragColor]. *)
Definition main (color : vec4) : vec4 :=
  if gt (red color) 0.7 && lt (green color) 0.3 && lt (blue color) 0.3
  then mk4 1 0 0 1
  else
    let luminance := red color * 0.299 + green color * 0.587 + blue color * 0.114 in
    let bw := step 0.5 luminance in
    mk4 bw bw bw 1.

Definition black : vec4 := mk4 0 0 0 1.
Definition white : vec4 := mk4 1 1 1 1.
Definition pure_red : vec4 := mk4 1 0 0 1.

End Shader.

(* ================================================================== *)
(** * [GlobePage]                                                      *)
(* ================================================================== *)

Module GlobePage.

Definition loadingDots : list string := ["   "; ".  "; ".. "; "..."].

(** The updater given to [setLoadingStep] every 400 ms while loading. *)
Definition next_loadingStep (prev : nat) : nat := (prev + 1) mod 4.

(** [loadingDots[loadingStep]]; [None] is [undefined], which renders as
    nothing. *)
Definition shown_dots (loadingStep : nat) : option string :=
  nth_error loadingDots loadingStep.

(** The [neighbors] state once the fetch of the first effect has settled.
    [response] is the outcome of [res.json()]; the state starts as [[]]
    and keeps that value when a promise of the chain rejects. *)
Definition neighbors_after_fetch (response : completion value) : value :=
  match (data <- response ;;
         neighbors <- Get data "neighbors" ;;
         Normal (or_else neighbors (VArr []))) with
  | Normal neighbors => neighbors
  | Throw _ => VArr []
  end.

Section Canvas.

Variable upcase : string -> string.
Variable StringToNumber : string -> number.
Variable ObjectToNumber : value -> number.

(** [<AirportDots neighbors={neighbors} airportsData={airportsData} />]:
    only an array has [reduce]. *)
Definition airport_dots (neighbors airportsData : value)
  : completion (list Globe.BlinkingDot) :=
  match neighbors with
  | VArr l => Globe.AirportDots upcase StringToNumber ObjectToNumber l airportsData
  | _ => Throw TypeError
  end.

End Canvas.

End GlobePage.

(* ================================================================== *)
(** * The list page [Neighborhood]                                     *)
(* ================================================================== *)

Module Neighborhood.

(** The state of the component, without [sortType]. *)
Record state : Type := {
  neighbors : list value;
  loading : bool;
  error : value
}.

Definition initial : state :=
  {| neighbors := []; loading := true; error := VNull |}.

(** [array.filter(p)] with a callback that may throw. *)
Fixpoint array_filter (p : value -> completion bool) (l : list value)
  : completion (list value) :=
  match l with
  | [] => Normal []
  | a :: l' =>
      keep <- p a ;;
      rest <- array_filter p l' ;;
      Normal (if keep then a :: rest else rest)
  end.

(** [neighbor => neighbor.fullName || neighbor.slackFullName] *)
Definition has_name (neighbor : value) : completion bool :=
  fullName <- Get neighbor "fullName" ;;
  if truthy fullName then Normal true
  else
    slackFullName <- Get neighbor "slackFullName" ;;
    Normal (truthy slackFullName).

(** The body of the [try] of [fetchNeighbors]; [response] is the outcome
    of the two awaits. *)
Definition filteredNeighbors (response : completion value)
  : completion (list value) :=
  data <- response ;;
  neighbors <- Get data "neighbors" ;;
  match neighbors with
  | VArr l => array_filter has_name l
  | _ => Throw TypeError
  end.

(** [fetchNeighbors]: [try], [catch], [finally]. *)
Definition fetchNeighbors (response : completion value) (st : state) : state :=
  let st :=
    match filteredNeighbors response with
    | Normal filtered =>
        {| neighbors := filtered; loading := loading st; error := error st |}
    | Throw _ =>
        {| neighbors := neighbors st; loading := loading st;
           error := VStr "Failed to load neighbors" |}
    end in
  {| neighbors := neighbors st; loading := false; error := error st |}.

(** [!loading && !error]: the list is rendered. *)
Definition list_shown (st : state) : bool :=
  negb (loading st) && negb (truthy (error st)).

(** What a comparator result means to [sort]: only a positive number puts
    the second argument first; [NaN] counts as 0. *)
Definition positive (v : number) : bool :=
  match v with
  | Num x => if Rgt_dec x 0 then true else false
  | NaN => false
  end.

(** [v === undefined] *)
Definition is_undefined (v : value) : bool :=
  match v with
  | VUndefined => true
  | _ => false
  end.

Definition defined (v : value) : bool := negb (is_undefined v).

(** The comparison that [sort] makes of two elements (SortCompare of the
    language definition): an [undefined] element is larger than any other,
    and the comparator is called on the other elements only. *)
Definition SortCompare (cmp : value -> value -> completion number) (x y : value)
  : completion number :=
  match x, y with
  | VUndefined, VUndefined => Normal (Num 0)
  | VUndefined, _ => Normal (Num 1)
  | _, VUndefined => Normal (Num (-1))
  | _, _ => cmp x y
  end.

(** [array.sort(cmp)].  The language fixes the result for a consistent
    comparator: the sorted permutation that keeps equal elements in their
    order, with the [undefined] elements last.  The insertion sort below
    computes that permutation; with an inconsistent comparator the order
    depends on the engine. *)
Fixpoint insert (cmp : value -> value -> completion number) (x : value)
         (l : list value) : completion (list value) :=
  match l with
  | [] => Normal [x]
  | y :: l' =>
      v <- cmp x y ;;
      if positive v then (r <- insert cmp x l' ;; Normal (y :: r))
      else Normal (x :: y :: l')
  end.

Fixpoint insertion_sort (cmp : value -> value -> completion number)
         (l : list value) : completion (list value) :=
  match l with
  | [] => Normal []
  | x :: l' => s <- insertion_sort cmp l' ;; insert cmp x s
  end.

Definition array_sort (cmp : value -> value -> completion number) (l : list value)
  : completion (list value) :=
  insertion_sort (SortCompare cmp) l.

Section Sorting.

Variable StringToNumber : string -> number.
Variable ObjectToNumber : value -> number.

Let Number := ToNumber StringToNumber ObjectToNumber.

(** The comparator of [sortedNeighbors]. *)
Definition compare (sortType : string) (a b : value) : completion number :=
  if String.eqb sortType "largestLogged" then
    hb <- Get b "totalTimeHackatimeHours" ;;
    ha <- Get a "totalTimeHackatimeHours" ;;
    Normal (Number hb - Number ha)%js
  else if String.eqb sortType "smallestLogged" then
    ha <- Get a "totalTimeHackatimeHours" ;;
    hb <- Get b "totalTimeHackatimeHours" ;;
    Normal (Number ha - Number hb)%js
  else if String.eqb sortType "largestChecked" then
    cb <- Get b "totalCheckedTime" ;;
    ca <- Get a "totalCheckedTime" ;;
    Normal (Number cb - Number ca)%js
  else if String.eqb sortType "smallestChecked" then
    ca <- Get a "totalCheckedTime" ;;
    cb <- Get b "totalCheckedTime" ;;
    Normal (Number ca - Number cb)%js
  else Normal (Num 0).

(** [[...neighbors].sort(...)] *)
Definition sortedNeighbors (sortType : string) (neighbors : list value)
  : completion (list value) :=
  array_sort (compare sortType) neighbors.

(** ** Vocabulary of the statements about sorting *)

(** The number in field [k] of a neighbor, when it is one. *)
Definition field_number (k : string) (neighbor : value) : option R :=
  match Get neighbor k with
  | Normal v =>
      match Number v with
      | Num x => Some x
      | NaN => None
      end
  | Throw _ => None
  end.

Definition is_number (k : string) (neighbor : value) : bool :=
  match field_number k neighbor with
  | Some _ => true
  | None => false
  end.

(** [a] may stand before [b] in a list sorted on field [k], largest first
    or smallest first. *)
Definition in_order (k : string) (largest_first : bool) (a b : value) : Prop :=
  match field_number k a, field_number k b with
  | Some x, Some y => if largest_first then (y <= x)%R else (x <= y)%R
  | _, _ => False
  end.

(** The field and the direction of each sort type. *)
Definition sort_order (sortType : string) : option (string * bool) :=
  if String.eqb sortType "largestLogged" then Some ("totalTimeHackatimeHours", true)
  else if String.eqb sortType "smallestLogged" then Some ("totalTimeHackatimeHours", false)
  else if String.eqb sortType "largestChecked" then Some ("totalCheckedTime", true)
  else if String.eqb sortType "smallestChecked" then Some ("totalCheckedTime", false)
  else None.

End Sorting.

(** The text of the link:
    [fullName || slackFullName || slackId || "unnamed"] *)
Definition display_name (neighbor : value) : completion value :=
  fullName <- Get neighbor "fullName" ;;
  if truthy fullName then Normal fullName
  else
    slackFullName <- Get neighbor "slackFullName" ;;
    if truthy slackFullName then Normal slackFullName
    else
      slackId <- Get neighbor "slackId" ;;
      Normal (or_else slackId (VStr "unnamed")).

End Neighborhood.

(* ================================================================== *)
(** * Vocabulary of the further statements                             *)
(* ================================================================== *)

Module Vocabulary.

(** The value of field [k] of an Airtable row, [undefined] when the row
    has no such field. *)
Definition field (r : Api.record) (k : string) : value :=
  match lookup k (Api.fields r) with
  | Some v => v
  | None => VUndefined
  end.

(** A value that [x || d] lets through or replaces by [d]. *)
Definition truthy_or (d v : value) : Prop := truthy v = true \/ v = d.

(** The number of dots in a string. *)
Fixpoint count_dots (s : string) : nat :=
  match s with
  | EmptyString => 0
  | String c s' => (if Ascii.eqb c "."%char then 1 else 0) + count_dots s'
  end.

(** The number of members of all groups. *)
Definition members_count (gs : Globe.Groups) : nat :=
  list_sum (map (fun entry => List.length (snd entry)) gs).

(** A dot made for [neighbor]. *)
Definition dot_of (StringToNumber : string -> number)
           (ObjectToNumber : value -> number)
           (neighbor : value) (d : Globe.BlinkingDot) : Prop :=
  Globe.onClick d = neighbor /\
  Globe.interactive d = true /\
  Get neighbor "slackId" = Normal (Globe.key d) /\
  Globe.dot_color StringToNumber ObjectToNumber neighbor = Normal (Globe.color d).

(** [v?.[k]], which never throws. *)
Definition opt_get (v : value) (k : string) : value :=
  match opt_Get v k with
  | Normal w => w
  | Throw _ => VUndefined
  end.

(** The neighbor that the route builds from a row, field by field. *)
Definition record_object (StringToNumber : string -> number)
           (ObjectToNumber : value -> number) (r : Api.record) : value :=
  VObj [ ("id", VStr (Api.id r));
         ("pfp", or_else (opt_get (opt_get (field r "Pfp (from slackNeighbor)") "0") "url")
                         VNull);
         ("slackId", or_else (field r "Slack ID (from slackNeighbor)") VNull);
         ("slackFullName", or_else (field r "Full Name (from slackNeighbor)") VNull);
         ("githubUsername", or_else (field r "githubUsername") VNull);
         ("totalTimeCombinedHours",
          or_else (field r "totalTimeCombinedHours") (VNum (Num 0)));
         ("totalTimeHackatimeHours",
          VNum (Math.round (ToNumber StringToNumber ObjectToNumber
                              (or_else (field r "totalTimeHackatimeHours")
                                       (VNum (Num 0))))));
         ("totalTimeStopwatchHours",
          or_else (field r "totalTimeStopwatchHours") (VNum (Num 0)));
         ("fullName", or_else (field r "Full Name") VNull);
         ("totalCheckedTime", or_else (field r "totalCheckedTime") (VNum (Num 0)));
         ("airport", field r "airport") ].

(** The neighbor as the pages receive it. *)
Definition wire_record (StringToNumber : string -> number)
           (ObjectToNumber : value -> number) (r : Api.record) : value :=
  Api.json (record_object StringToNumber ObjectToNumber r).

(** The properties of an object after serialisation. *)
Definition json_props (o : object) : object :=
  match Api.json (VObj o) with
  | VObj o' => o'
  | _ => []
  end.

(** A neighbor that the list page keeps. *)
Definition named (neighbor : value) : bool :=
  match Neighborhood.has_name neighbor with
  | Normal keep => keep
  | Throw _ => false
  end.

(** The number that the sort reads in field [k], 0 when there is none. *)
Definition key_number (StringToNumber : string -> number)
           (ObjectToNumber : value -> number) (k : string) (neighbor : value) : R :=
  match Neighborhood.field_number StringToNumber ObjectToNumber k neighbor with
  | Some x => x
  | None => 0%R
  end.

(** The neighbor has the number [x] in field [k]. *)
Definition key_is (StringToNumber : string -> number)
           (ObjectToNumber : value -> number) (k : string) (x : R)
           (neighbor : value) : bool :=
  match Neighborhood.field_number StringToNumber ObjectToNumber k neighbor with
  | Some y => if Req_dec_T y x then true else false
  | None => false
  end.

(** The comparator [cmp] answers, on the elements of [l], the difference
    of the keys [key]; and the elements with key [c]. *)
Definition by_key (cmp : value -> value -> completion number) (key : value -> R)
           (l : list value) : Prop :=
  forall a b, In a l -> In b l -> cmp a b = Normal (Num (key b - key a)).

Definition has_key (key : value -> R) (c : R) (n : value) : bool :=
  if Req_dec_T (key n) c then true else false.

(** The state of the list page after a failed fetch. *)
Definition failed : Neighborhood.state :=
  {| Neighborhood.neighbors := []; Neighborhood.loading := false;
     Neighborhood.error := VStr "Failed to load neighbors" |}.

(** ** Example data *)

(** A table whose coordinates are text, as a JSON file may have them. *)
Definition text_sfo_record : value :=
  VObj [("iata", VStr "SFO"); ("icao", VStr "KSFO");
        ("lat", VStr "37.62"); ("lon", VStr "-122.38")].

Definition only_text_sfo : value := VObj [("KSFO", text_sfo_record)].

Definition text_sfo_dot (neighbor : value) (index : nat) : Globe.BlinkingDot :=
  {| Globe.key := VUndefined;
     Globe.pos := Vector3.run
                    (Globe.calculateOffsetPosition
                       (Globe.latLonToVec3 NaN NaN Globe.default_radius) index 2);
     Globe.onClick := neighbor;
     Globe.interactive := true;
     Globe.color := "red" |}.

(** A row with a picture and 99.5 logged hours, and two neighbors of the
    list page. *)
Definition pictured_record : Api.record :=
  {| Api.id := "rec2";
     Api.fields :=
       [("Pfp (from slackNeighbor)",
         VArr [VObj [("url", VStr "https://example.org/p.png")]]);
        ("Full Name", VStr "Ada");
        ("totalTimeHackatimeHours", VNum (Num 99.5))] |}.

(** A row with nothing but an airport. *)
Definition bare_record : Api.record :=
  {| Api.id := "rec3"; Api.fields := [("airport", VStr "sfo")] |}.

(** The dot of that row on the table above, whose coordinates spell no
    number for [no_literal]. *)
Definition bare_dot : Globe.BlinkingDot :=
  {| Globe.key := VNull;
     Globe.pos := Globe.latLonToVec3 NaN NaN Globe.default_radius;
     Globe.onClick := wire_record Persons.no_literal Persons.no_object_number bare_record;
     Globe.interactive := true;
     Globe.color := "red" |}.

Definition listed (name : string) (hours checked : R) : value :=
  VObj [("fullName", VStr name);
        ("totalTimeHackatimeHours", VNum (Num hours));
        ("totalCheckedTime", VNum (Num checked))].

End Vocabulary.

(* ================================================================== *)
(** * Facts about numbers                                              *)
(* ================================================================== *)

Module NumberFacts.

Local Open Scope R_scope.

Lemma ndiv_Num x y : y <> 0 -> (Num x / Num y)%js = Num (x / y).
Proof.
  intros H. unfold ndiv.
  destruct (Req_dec_T y 0); [contradiction | reflexivity].
Qed.

Lemma sqrt_Num s : 0 <= s -> Math.sqrt (Num s) = Num (sqrt s).
Proof.
  intros H. unfold Math.sqrt.
  destruct (Rle_dec 0 s); [reflexivity | contradiction].
Qed.

Lemma truthy_Num x : x <> 0 -> truthy (VNum (Num x)) = true.
Proof.
  intros H. simpl.
  destruct (Req_dec_T x 0); [contradiction | reflexivity].
Qed.

Lemma falsy_zero : truthy (VNum (Num 0)) = false.
Proof.
  simpl. destruct (Req_dec_T 0 0); [reflexivity | contradiction].
Qed.

Lemma nge_Num x y : x >= y -> nge (Num x) (Num y) = true.
Proof.
  intros H. unfold nge. destruct (Rge_dec x y); [reflexivity | contradiction].
Qed.

Lemma nge_Num_lt x y : x < y -> nge (Num x) (Num y) = false.
Proof.
  intros H. unfold nge. destruct (Rge_dec x y); [lra | reflexivity].
Qed.

Lemma Num_inj x y : Num x = Num y -> x = y.
Proof. now intros [= ->]. Qed.

Lemma sum_squares_nonneg a b c : 0 <= a * a + b * b + c * c.
Proof. nra. Qed.

(** A vector divided by its length has length one. *)
Lemma normalized_unit a b c :
  0 < a * a + b * b + c * c ->
  let u := 1 / sqrt (a * a + b * b + c * c) in
  a * u * (a * u) + b * u * (b * u) + c * u * (c * u) = 1.
Proof.
  intros H u. pose proof (sqrt_lt_R0 _ H) as Hm.
  pose proof (sqrt_sqrt (a * a + b * b + c * c) (Rlt_le _ _ H)) as Hs.
  set (m := sqrt (a * a + b * b + c * c)) in *.
  assert (Hu : m * u = 1) by (unfold u; field; lra).
  replace (a * u * (a * u) + b * u * (b * u) + c * u * (c * u))
    with ((a * a + b * b + c * c) * (u * u)) by ring.
  rewrite <- Hs. replace (m * m * (u * u)) with ((m * u) * (m * u)) by ring.
  rewrite Hu. ring.
Qed.

(** The tangent part [t = o - n (o . n)] is orthogonal to the base [p], so
    [p + t] is at least as long as [p]. *)
Lemma base_plus_tangent_positive a b c ox oy oz :
  0 < a * a + b * b + c * c ->
  let u := 1 / sqrt (a * a + b * b + c * c) in
  let d := ox * (a * u) + oy * (b * u) + oz * (c * u) in
  let fx := a + (ox - a * u * d) in
  let fy := b + (oy - b * u * d) in
  let fz := c + (oz - c * u * d) in
  0 < fx * fx + fy * fy + fz * fz.
Proof.
  intros H u d fx fy fz.
  pose proof (normalized_unit a b c H) as Hn. fold u in Hn.
  set (tx := ox - a * u * d). set (ty := oy - b * u * d). set (tz := oz - c * u * d).
  assert (Horth : a * tx + b * ty + c * tz = 0).
  { unfold tx, ty, tz, d.
    replace (a * (ox - a * u * (ox * (a * u) + oy * (b * u) + oz * (c * u)))
             + b * (oy - b * u * (ox * (a * u) + oy * (b * u) + oz * (c * u)))
             + c * (oz - c * u * (ox * (a * u) + oy * (b * u) + oz * (c * u))))
      with ((a * ox + b * oy + c * oz)
            * (1 - (a * u * (a * u) + b * u * (b * u) + c * u * (c * u)))) by ring.
    rewrite Hn. ring. }
  replace (fx * fx + fy * fy + fz * fz)
    with ((a * a + b * b + c * c) + 2 * (a * tx + b * ty + c * tz)
          + (tx * tx + ty * ty + tz * tz))
    by (unfold fx, fy, fz; fold tx ty tz; ring).
  rewrite Horth. nra.
Qed.

End NumberFacts.

(* ================================================================== *)
(** * Facts about the store of vectors                                 *)
(* ================================================================== *)

Module StoreFacts.

Import Vector3 Globe Pure.

Lemma bind_run A B (m : St A) (k : A -> St B) h a h' :
  m h = (a, h') -> Vector3.bind m k h = k a h'.
Proof. intros E. unfold Vector3.bind. now rewrite E. Qed.

Lemma vec_eta v : mk (x v) (y v) (z v) = v.
Proof. now destruct v. Qed.

Lemma new_run v h : new v h = (next h, alloc v h).
Proof. reflexivity. Qed.

Lemma read_run r h : read r h = (cell h r, h).
Proof. reflexivity. Qed.

Lemma clone_run r h : clone r h = (next h, alloc (cell h r) h).
Proof. unfold clone, Vector3.bind, read. now rewrite vec_eta. Qed.

Lemma dot_run a b h : dot a b h = (vdot (cell h a) (cell h b), h).
Proof. reflexivity. Qed.

Lemma multiplyScalar_run r s h :
  multiplyScalar r s h = (r, upd r (scale (cell h r) s) h).
Proof. reflexivity. Qed.

Lemma normalize_run r h : normalize r h = (r, upd r (vnormalize (cell h r)) h).
Proof. reflexivity. Qed.

Lemma sub_run a b h : sub a b h = (a, upd a (vsub (cell h a) (cell h b)) h).
Proof. reflexivity. Qed.

Lemma add_run a b h : add a b h = (a, upd a (vadd (cell h a) (cell h b)) h).
Proof. reflexivity. Qed.

Lemma next_alloc v h : next (alloc v h) = S (next h).
Proof. reflexivity. Qed.

Lemma next_upd r v h : next (upd r v h) = next h.
Proof. reflexivity. Qed.

Lemma cell_alloc_new v h r : r = next h -> cell (alloc v h) r = v.
Proof. intros ->. cbn. now rewrite Nat.eqb_refl. Qed.

Lemma cell_alloc_old v h r : r <> next h -> cell (alloc v h) r = cell h r.
Proof. intros E. cbn. now apply Nat.eqb_neq in E as ->. Qed.

Lemma cell_upd_same r v h r' : r' = r -> cell (upd r v h) r' = v.
Proof. intros ->. cbn. now rewrite Nat.eqb_refl. Qed.

Lemma cell_upd_other r v h r' : r' <> r -> cell (upd r v h) r' = cell h r'.
Proof. intros E. cbn. now apply Nat.eqb_neq in E as ->. Qed.

Ltac store_simpl :=
  repeat first
    [ rewrite next_alloc | rewrite next_upd
    | rewrite cell_alloc_new by (simpl; lia)
    | rewrite cell_alloc_old by (simpl; lia)
    | rewrite cell_upd_same by (simpl; lia)
    | rewrite cell_upd_other by (simpl; lia) ].

Ltac step L := erewrite bind_run by (apply L); store_simpl.

(** On every store, [calculateOffsetPosition] returns what the pure
    vector algebra computes: the in-place updates only ever touch the
    clones made inside the call. *)
Lemma calculateOffsetPosition_pure base i n h :
  fst (calculateOffsetPosition base i n h) = offsetPosition base i n.
Proof.
  unfold calculateOffsetPosition, offsetPosition.
  destruct (n <=? 1)%nat; [reflexivity|].
  destruct base as [[bx by_] bz].
  fold (offset_vector i n).
  step new_run. step new_run.
  erewrite bind_run; [|step clone_run; apply normalize_run].
  store_simpl.
  erewrite bind_run;
    [|step clone_run; step dot_run; step multiplyScalar_run; apply sub_run].
  store_simpl.
  erewrite bind_run; [|step clone_run; step add_run; apply normalize_run].
  store_simpl.
  step read_run. reflexivity.
Qed.

Lemma run_calculateOffsetPosition base i n :
  run (calculateOffsetPosition base i n) = offsetPosition base i n.
Proof. apply calculateOffsetPosition_pure. Qed.

(** The store only grows, and the cells that existed before the call
    keep their contents. *)
Lemma calculateOffsetPosition_frame base i n h r :
  (r < next h)%nat ->
  cell (snd (calculateOffsetPosition base i n h)) r = cell h r.
Proof.
  intros Hr. unfold calculateOffsetPosition.
  destruct (n <=? 1)%nat; [reflexivity|].
  destruct base as [[bx by_] bz].
  step new_run. step new_run.
  erewrite bind_run; [|step clone_run; apply normalize_run].
  store_simpl.
  erewrite bind_run;
    [|step clone_run; step dot_run; step multiplyScalar_run; apply sub_run].
  store_simpl.
  erewrite bind_run; [|step clone_run; step add_run; apply normalize_run].
  store_simpl.
  step read_run. cbn [snd ret]. store_simpl. reflexivity.
Qed.

End StoreFacts.

(* ================================================================== *)
(** * Projection and cluster layout                                    *)
(* ================================================================== *)

Module GeometryFacts.

Import Vector3 Globe Pure Geometry NumberFacts StoreFacts.
Local Open Scope R_scope.

Lemma norm_real a b c :
  norm (real_position a b c) = Num (sqrt (a * a + b * b + c * c)).
Proof.
  unfold norm, real_position. cbn [nadd nmul lift2].
  apply sqrt_Num, sum_squares_nonneg.
Qed.

Lemma latLonToVec3_real lat lon r :
  latLonToVec3 (Num lat) (Num lon) (Num r) =
  real_position (- r * sin ((90 - lat) * (PI / 180)) * cos ((lon + 180) * (PI / 180)))
                (r * cos ((90 - lat) * (PI / 180)))
                (r * sin ((90 - lat) * (PI / 180)) * sin ((lon + 180) * (PI / 180))).
Proof.
  unfold latLonToVec3, Math.PI. rewrite ndiv_Num by lra. reflexivity.
Qed.

Lemma spherical_sum_squares r p t :
  - r * sin p * cos t * (- r * sin p * cos t) + r * cos p * (r * cos p)
  + r * sin p * sin t * (r * sin p * sin t) = r * r.
Proof.
  pose proof (sin2_cos2 p) as Hp. pose proof (sin2_cos2 t) as Ht.
  unfold Rsqr in *.
  replace (- r * sin p * cos t * (- r * sin p * cos t) + r * cos p * (r * cos p)
           + r * sin p * sin t * (r * sin p * sin t))
    with (r * r * ((sin p * sin p) * (sin t * sin t + cos t * cos t) + cos p * cos p))
    by ring.
  rewrite Ht, Rmult_1_r, Hp. ring.
Qed.

Lemma latLonToVec3_norm_nonneg lat lon r :
  0 <= r -> norm (latLonToVec3 (Num lat) (Num lon) (Num r)) = Num r.
Proof.
  intros Hr. rewrite latLonToVec3_real, norm_real, spherical_sum_squares.
  now rewrite sqrt_square.
Qed.

Lemma vnormalize_real a b c :
  0 < a * a + b * b + c * c ->
  vnormalize (mk (Num a) (Num b) (Num c)) =
  mk (Num (a * (1 / sqrt (a * a + b * b + c * c))))
     (Num (b * (1 / sqrt (a * a + b * b + c * c))))
     (Num (c * (1 / sqrt (a * a + b * b + c * c)))).
Proof.
  intros H. unfold vnormalize, vlength. cbn [x y z nmul nadd lift2].
  rewrite sqrt_Num by lra.
  pose proof (sqrt_lt_R0 _ H) as Hm.
  rewrite truthy_Num by lra. rewrite ndiv_Num by lra. reflexivity.
Qed.

Lemma offset_vector_real i n :
  (n <> 0)%nat ->
  offset_vector i n =
  mk (Num (cos (INR i / INR n * PI * 2) * 0.01)) (Num 0)
     (Num (sin (INR i / INR n * PI * 2) * 0.01)).
Proof.
  intros H. unfold offset_vector, of_nat.
  rewrite ndiv_Num by (apply not_0_INR; exact H). reflexivity.
Qed.

(** The result of [calculateOffsetPosition] on a base with real
    coordinates, spelled out. *)
Lemma offsetPosition_real a b c i n :
  0 < a * a + b * b + c * c -> (2 <= n)%nat ->
  offsetPosition (real_position a b c) i n =
  let u := 1 / sqrt (a * a + b * b + c * c) in
  let ox := cos (INR i / INR n * PI * 2) * 0.01 in
  let oz := sin (INR i / INR n * PI * 2) * 0.01 in
  let d := ox * (a * u) + 0 * (b * u) + oz * (c * u) in
  let fx := a + (ox - a * u * d) in
  let fy := b + (0 - b * u * d) in
  let fz := c + (oz - c * u * d) in
  let w := 1 / sqrt (fx * fx + fy * fy + fz * fz) in
  real_position (fx * w) (fy * w) (fz * w).
Proof.
  intros HS Hn. unfold offsetPosition.
  destruct (Nat.leb_spec n 1) as [Hle|_]; [lia|].
  unfold real_position.
  rewrite offset_vector_real by lia. rewrite vnormalize_real by assumption.
  unfold vdot, scale, vsub, vadd. cbn [x y z nmul nadd nsub lift2].
  pose proof (base_plus_tangent_positive a b c
                (cos (INR i / INR n * PI * 2) * 0.01) 0
                (sin (INR i / INR n * PI * 2) * 0.01) HS) as Hp.
  cbv zeta in Hp.
  rewrite vnormalize_real by exact Hp.
  reflexivity.
Qed.

Lemma offsetPosition_norm a b c i n :
  0 < a * a + b * b + c * c -> (2 <= n)%nat ->
  norm (offsetPosition (real_position a b c) i n) = Num 1.
Proof.
  intros HS Hn. rewrite offsetPosition_real by assumption. cbv zeta.
  rewrite norm_real. f_equal.
  pose proof (base_plus_tangent_positive a b c
                (cos (INR i / INR n * PI * 2) * 0.01) 0
                (sin (INR i / INR n * PI * 2) * 0.01) HS) as Hp.
  cbv zeta in Hp.
  rewrite (normalized_unit _ _ _ Hp). apply sqrt_1.
Qed.

Lemma offsetPosition_single base i n :
  (n <= 1)%nat -> offsetPosition base i n = base.
Proof.
  intros H. unfold offsetPosition.
  destruct (Nat.leb_spec n 1); [reflexivity | lia].
Qed.

(** On the base [(1, 0, 0)] the tangent part keeps only the [z]
    coordinate of the offset. *)
Lemma offsetPosition_x_axis i n :
  (2 <= n)%nat ->
  offsetPosition (real_position 1 0 0) i n =
  let oz := sin (INR i / INR n * PI * 2) * 0.01 in
  let w := 1 / sqrt (1 + oz * oz) in
  real_position w 0 (oz * w).
Proof.
  intros Hn. rewrite offsetPosition_real by (assumption || lra). cbv zeta.
  replace (1 * 1 + 0 * 0 + 0 * 0) with 1 by ring. rewrite sqrt_1.
  set (ox := cos (INR i / INR n * PI * 2) * 0.01).
  set (oz := sin (INR i / INR n * PI * 2) * 0.01).
  replace (1 + (ox - 1 * (1 / 1) * (ox * (1 * (1 / 1)) + 0 * (0 * (1 / 1)) + oz * (0 * (1 / 1)))))
    with 1 by field.
  replace (0 + (0 - 0 * (1 / 1) * (ox * (1 * (1 / 1)) + 0 * (0 * (1 / 1)) + oz * (0 * (1 / 1)))))
    with 0 by field.
  replace (0 + (oz - 0 * (1 / 1) * (ox * (1 * (1 / 1)) + 0 * (0 * (1 / 1)) + oz * (0 * (1 / 1)))))
    with oz by field.
  replace (1 * 1 + 0 * 0 + oz * oz) with (1 + oz * oz) by ring.
  now rewrite Rmult_1_l, Rmult_0_l.
Qed.

Lemma dist_self a b c : dist (real_position a b c) (real_position a b c) = Num 0.
Proof.
  unfold dist, real_position. cbn [nsub lift2].
  change (norm (real_position (a - a) (b - b) (c - c)) = Num 0).
  rewrite norm_real. f_equal.
  replace ((a - a) * (a - a) + (b - b) * (b - b) + (c - c) * (c - c)) with 0 by ring.
  apply sqrt_0.
Qed.

Lemma overlap_10 :
  offsetPosition (real_position 1 0 0) 2 10 = offsetPosition (real_position 1 0 0) 3 10.
Proof.
  rewrite !offsetPosition_x_axis by lia. cbv zeta.
  replace (INR 2 / INR 10 * PI * 2) with (PI - INR 3 / INR 10 * PI * 2)
    by (simpl; field).
  now rewrite sin_PI_x.
Qed.

Lemma overlap_2_0 : offsetPosition (real_position 1 0 0) 0 2 = real_position 1 0 0.
Proof.
  rewrite offsetPosition_x_axis by lia. cbv zeta.
  replace (INR 0 / INR 2 * PI * 2) with 0 by (simpl; field).
  rewrite sin_0. replace (1 + 0 * 0.01 * (0 * 0.01)) with 1 by ring.
  rewrite sqrt_1. replace (1 / 1) with 1 by field.
  replace (0 * 0.01 * 1) with 0 by ring. reflexivity.
Qed.

Lemma overlap_2_1 : offsetPosition (real_position 1 0 0) 1 2 = real_position 1 0 0.
Proof.
  rewrite offsetPosition_x_axis by lia. cbv zeta.
  replace (INR 1 / INR 2 * PI * 2) with PI by (simpl; field).
  rewrite sin_PI. replace (1 + 0 * 0.01 * (0 * 0.01)) with 1 by ring.
  rewrite sqrt_1. replace (1 / 1) with 1 by field.
  replace (0 * 0.01 * 1) with 0 by ring. reflexivity.
Qed.


Lemma offsetPositions_length base count :
  List.length (offsetPositions base count) = count.
Proof. unfold offsetPositions. now rewrite length_map, length_seq. Qed.

Lemma offsetPositions_nth base count index d :
  (index < count)%nat ->
  nth index (offsetPositions base count) d = offsetPosition base index count.
Proof.
  intros H. unfold offsetPositions.
  rewrite (nth_indep _ d (Vector3.run (calculateOffsetPosition base 0 count)))
    by now rewrite length_map, length_seq.
  rewrite (map_nth (fun index => Vector3.run (calculateOffsetPosition base index count))).
  rewrite seq_nth by exact H. apply run_calculateOffsetPosition.
Qed.

(** Every position of a cluster around a base on the unit sphere has
    norm 1. *)
Lemma offsetPositions_unit_norm a b c count :
  a * a + b * b + c * c = 1 ->
  Forall (fun p => norm p = Num 1) (offsetPositions (real_position a b c) count).
Proof.
  intros H. unfold offsetPositions. apply Forall_map, Forall_forall.
  intros index _. rewrite run_calculateOffsetPosition.
  destruct (Nat.le_gt_cases count 1) as [Hc|Hc].
  - rewrite offsetPosition_single by exact Hc.
    rewrite norm_real, H. now rewrite sqrt_1.
  - apply offsetPosition_norm; [lra | lia].
Qed.

(** The base is orthogonal to the tangent part, so the sum keeps the
    component of the base along itself. *)
Lemma tangent_orthogonal a b c ox oy oz :
  0 < a * a + b * b + c * c ->
  let u := 1 / sqrt (a * a + b * b + c * c) in
  let d := ox * (a * u) + oy * (b * u) + oz * (c * u) in
  a * (a + (ox - a * u * d)) + b * (b + (oy - b * u * d)) + c * (c + (oz - c * u * d))
  = a * a + b * b + c * c.
Proof.
  intros H u d. pose proof (normalized_unit a b c H) as Hn. fold u in Hn.
  replace (a * (a + (ox - a * u * d)) + b * (b + (oy - b * u * d))
           + c * (c + (oz - c * u * d)))
    with ((a * a + b * b + c * c)
          + ((a * ox + b * oy + c * oz)
             - d * ((a * a + b * b + c * c) * u))) by ring.
  assert (Hd : d * ((a * a + b * b + c * c) * u) = a * ox + b * oy + c * oz).
  { unfold d.
    replace ((ox * (a * u) + oy * (b * u) + oz * (c * u)) * ((a * a + b * b + c * c) * u))
      with ((a * ox + b * oy + c * oz)
            * (a * u * (a * u) + b * u * (b * u) + c * u * (c * u))) by ring.
    rewrite Hn. ring. }
  rewrite Hd. ring.
Qed.

(** Two different indices of a group give different points of the offset
    circle. *)
Lemma offsets_differ i j n :
  (i < j < n)%nat ->
  cos (INR i / INR n * PI * 2) = cos (INR j / INR n * PI * 2) ->
  sin (INR i / INR n * PI * 2) = sin (INR j / INR n * PI * 2) ->
  False.
Proof.
  intros [Hij Hjn] Hc Hs.
  set (ai := INR i / INR n * PI * 2) in *. set (aj := INR j / INR n * PI * 2) in *.
  assert (Hn : 0 < INR n) by (apply lt_0_INR; lia).
  assert (Hi : 0 <= INR i) by apply pos_INR.
  assert (Hij' : INR i < INR j) by now apply lt_INR.
  assert (Hjn' : INR j < INR n) by now apply lt_INR.
  pose proof PI_RGT_0 as Hpi.
  set (h := (aj - ai) / 2).
  assert (Hh : h = (INR j - INR i) / INR n * PI) by (unfold h, ai, aj; field; lra).
  assert (Hq0 : 0 < (INR j - INR i) / INR n).
  { apply Rdiv_lt_0_compat; lra. }
  assert (Hq1 : (INR j - INR i) / INR n < 1).
  { apply (Rmult_lt_reg_r (INR n)); [exact Hn|]. 
    replace ((INR j - INR i) / INR n * INR n) with (INR j - INR i) by (field; lra). lra. }
  assert (H0 : 0 < h) by (rewrite Hh; apply Rmult_lt_0_compat; lra).
  assert (H1 : h < PI).
  { rewrite Hh. rewrite <- (Rmult_1_l PI) at 2. apply Rmult_lt_compat_r; lra. }
  pose proof (sin_gt_0 h H0 H1) as Hsin.
  assert (Hcos : cos (2 * h) = 1).
  { replace (2 * h) with (aj - ai) by (unfold h; field).
    rewrite cos_minus, <- Hc, <- Hs.
    pose proof (sin2_cos2 ai) as E. unfold Rsqr in E. lra. }
  rewrite cos_2a_sin in Hcos. nra.
Qed.

(** Off the plane [y = 0] two different indices of a group never get the
    same position. *)
Lemma offsetPosition_distinct a b c i j n :
  0 < a * a + b * b + c * c -> b <> 0 -> (i < j < n)%nat ->
  offsetPosition (real_position a b c) i n <> offsetPosition (real_position a b c) j n.
Proof.
  intros HS Hb Hij.
  rewrite !offsetPosition_real by (assumption || lia). cbv zeta.
  set (u := 1 / sqrt (a * a + b * b + c * c)).
  set (oxi := cos (INR i / INR n * PI * 2) * 0.01).
  set (ozi := sin (INR i / INR n * PI * 2) * 0.01).
  set (oxj := cos (INR j / INR n * PI * 2) * 0.01).
  set (ozj := sin (INR j / INR n * PI * 2) * 0.01).
  pose proof (base_plus_tangent_positive a b c oxi 0 ozi HS) as Pi.
  pose proof (base_plus_tangent_positive a b c oxj 0 ozj HS) as Pj.
  pose proof (tangent_orthogonal a b c oxi 0 ozi HS) as Oi.
  pose proof (tangent_orthogonal a b c oxj 0 ozj HS) as Oj.
  cbv zeta in Pi, Pj, Oi, Oj. fold u in Pi, Pj, Oi, Oj.
  set (di := oxi * (a * u) + 0 * (b * u) + ozi * (c * u)) in *.
  set (dj := oxj * (a * u) + 0 * (b * u) + ozj * (c * u)) in *.
  set (fxi := a + (oxi - a * u * di)) in *. set (fyi := b + (0 - b * u * di)) in *.
  set (fzi := c + (ozi - c * u * di)) in *.
  set (fxj := a + (oxj - a * u * dj)) in *. set (fyj := b + (0 - b * u * dj)) in *.
  set (fzj := c + (ozj - c * u * dj)) in *.
  pose proof (sqrt_lt_R0 _ Pi) as Mi. pose proof (sqrt_lt_R0 _ Pj) as Mj.
  set (wi := 1 / sqrt (fxi * fxi + fyi * fyi + fzi * fzi)).
  set (wj := 1 / sqrt (fxj * fxj + fyj * fyj + fzj * fzj)).
  assert (Wi : 0 < wi) by (unfold wi; apply Rdiv_lt_0_compat; lra).
  assert (Wj : 0 < wj) by (unfold wj; apply Rdiv_lt_0_compat; lra).
  unfold real_position. intros E. injection E as Ex Ey Ez.
  assert (Hw : wi = wj).
  { assert (Hsum : (a * fxi + b * fyi + c * fzi) * wi = (a * fxj + b * fyj + c * fzj) * wj).
    { replace ((a * fxi + b * fyi + c * fzi) * wi)
        with (a * (fxi * wi) + b * (fyi * wi) + c * (fzi * wi)) by ring.
      rewrite Ex, Ey, Ez. ring. }
    rewrite Oi, Oj in Hsum. apply (Rmult_eq_reg_l _ _ _ Hsum). lra. }
  rewrite Hw in Ex, Ey, Ez.
  apply Rmult_eq_reg_r in Ex; [|lra]. apply Rmult_eq_reg_r in Ey; [|lra].
  apply Rmult_eq_reg_r in Ez; [|lra].
  assert (Hu : 0 < u).
  { unfold u. apply Rdiv_lt_0_compat; [lra | now apply sqrt_lt_R0]. }
  assert (Hd : di = dj).
  { unfold fyi, fyj in Ey.
    assert (Hbu : b * u * di = b * u * dj) by lra.
    apply (Rmult_eq_reg_l (b * u)); [exact Hbu|].
    apply Rmult_integral_contrapositive_currified; lra. }
  unfold fxi, fxj, fzi, fzj in Ex, Ez. rewrite Hd in Ex, Ez.
  assert (Hx : oxi = oxj) by lra. assert (Hz : ozi = ozj) by lra.
  unfold oxi, oxj in Hx. unfold ozi, ozj in Hz.
  apply (offsets_differ i j n Hij); lra.
Qed.

Lemma offsetPositions_distinct_off_equator a b c count i j d :
  a * a + b * b + c * c = 1 -> b <> 0 ->
  (i < count)%nat -> (j < count)%nat -> i <> j ->
  nth i (offsetPositions (real_position a b c) count) d
  <> nth j (offsetPositions (real_position a b c) count) d.
Proof.
  intros HS Hb Hi Hj Hij. rewrite !offsetPositions_nth by assumption.
  destruct (Nat.lt_total i j) as [H|[H|H]]; [|contradiction|].
  - apply offsetPosition_distinct; [lra | exact Hb | lia].
  - intros E. symmetry in E. revert E.
    apply offsetPosition_distinct; [lra | exact Hb | lia].
Qed.

(** C3.  For a latitude in [-90, 90], a longitude in [-180, 180] and a
    radius [r > 0], the point [latLonToVec3(lat, lon, r)] has Euclidean
    norm [r]. *)
Theorem latLonToVec3_norm (lat lon r : R) :
  -90 <= lat <= 90 -> -180 <= lon <= 180 -> 0 < r ->
  norm (latLonToVec3 (Num lat) (Num lon) (Num r)) = Num r.
Proof.
  intros _ _ Hr. apply latLonToVec3_norm_nonneg. lra.
Qed.

Lemma latLonToVec3_norm_witness :
  (-90 <= 45 <= 90 /\ -180 <= 30 <= 180 /\ 0 < 2) /\
  norm (latLonToVec3 (Num 45) (Num 30) (Num 2)) = Num 2.
Proof.
  split; [lra|]. apply (latLonToVec3_norm 45 30 2); lra.
Defined.

(** C1 (the code at the failing input).  Around the base [(1, 0, 0)],
    which is on the unit sphere, the dots with index 2 and 3 of a group of
    ten get the same position, and both dots of a group of two get the
    base itself: the positions of a group are not pairwise distinct. *)
Theorem offsetPositions_overlap_on_equator :
  let base := real_position 1 0 0 in
  let d := real_position 0 0 0 in
  norm base = Num 1 /\
  List.length (offsetPositions base 10) = 10%nat /\
  nth 2 (offsetPositions base 10) d = nth 3 (offsetPositions base 10) d /\
  dist (nth 2 (offsetPositions base 10) d) (nth 3 (offsetPositions base 10) d) = Num 0 /\
  offsetPositions base 2 = [base; base].
Proof.
  cbv zeta. split; [|split; [|split; [|split]]].
  - rewrite norm_real. replace (1 * 1 + 0 * 0 + 0 * 0) with 1 by ring.
    now rewrite sqrt_1.
  - apply offsetPositions_length.
  - rewrite !offsetPositions_nth by lia. apply overlap_10.
  - rewrite !offsetPositions_nth by lia. rewrite overlap_10.
    rewrite offsetPosition_x_axis by lia. cbv zeta. apply dist_self.
  - unfold offsetPositions. cbn [seq map].
    rewrite !run_calculateOffsetPosition. now rewrite overlap_2_0, overlap_2_1.
Qed.

(** C2 as stated fails: a base made by [latLonToVec3] with the default
    radius has norm 1.001, and the position computed from it for a group
    of two has norm 1. *)
Lemma offsetPosition_leaves_base_sphere :
  let base := latLonToVec3 (Num 90) (Num 0) default_radius in
  let out := Vector3.run (calculateOffsetPosition base 0 2) in
  norm base = Num 1.001 /\ norm out = Num 1 /\ norm out <> norm base.
Proof.
  cbv zeta. unfold default_radius.
  assert (Hb : norm (latLonToVec3 (Num 90) (Num 0) (Num 1.001)) = Num 1.001)
    by (apply latLonToVec3_norm_nonneg; lra).
  assert (Ho : norm (Vector3.run
                       (calculateOffsetPosition
                          (latLonToVec3 (Num 90) (Num 0) (Num 1.001)) 0 2)) = Num 1).
  { rewrite run_calculateOffsetPosition, latLonToVec3_real.
    apply offsetPosition_norm; [|lia].
    rewrite spherical_sum_squares. lra. }
  split; [exact Hb|]. split; [exact Ho|].
  rewrite Hb, Ho. intros E. apply Num_inj in E. lra.
Qed.

(** C2, amended.  For a group of at most one dot the base position is
    returned unchanged; for a larger group the result has norm 1 whatever
    the norm of the (non-zero) base, so it is on the sphere of the base
    only when that is the unit sphere. *)
Theorem calculateOffsetPosition_sphere (a b c : R) (index total : nat) :
  0 < a * a + b * b + c * c ->
  let base := real_position a b c in
  let out := Vector3.run (calculateOffsetPosition base index total) in
  if (total <=? 1)%nat then out = base else norm out = Num 1.
Proof.
  intros H. cbv zeta. rewrite run_calculateOffsetPosition.
  destruct (Nat.leb_spec total 1) as [Hc|Hc].
  - now apply offsetPosition_single.
  - apply offsetPosition_norm; [exact H | lia].
Qed.

Lemma calculateOffsetPosition_sphere_witness :
  0 < 0 * 0 + 1.001 * 1.001 + 0 * 0 /\
  norm (Vector3.run (calculateOffsetPosition (real_position 0 1.001 0) 0 2)) = Num 1.
Proof.
  split; [lra|]. apply (calculateOffsetPosition_sphere 0 1.001 0 0 2). lra.
Defined.

(** C8.  [calculateOffsetPosition] has no hidden input: on any two stores
    it returns the same position for the same arguments, and a second
    call, made on the store that the first one leaves behind, returns
    what the first returned. *)
Theorem calculateOffsetPosition_deterministic
        (basePosition : position) (index total : nat) (h h' : Vector3.store) :
  let first := calculateOffsetPosition basePosition index total h in
  let second := calculateOffsetPosition basePosition index total (snd first) in
  fst second = fst first /\
  fst (calculateOffsetPosition basePosition index total h') = fst first.
Proof.
  cbv zeta. now rewrite !calculateOffsetPosition_pure.
Qed.

(** C6.  At elapsed time [t] the frame callback multiplies the base size
    of the dot by [|sin(2 t)|], a number of [[0, 1]] that does not depend
    on the dot, and sets the three axes of the scale to that product;
    without a mounted mesh it does nothing. *)
Theorem blink_scale_lockstep (t : R) (color : string) (current : vec) :
  blink_scale (Num t) = Num (Rabs (sin (2 * t))) /\
  0 <= Rabs (sin (2 * t)) <= 1 /\
  useFrame_callback color (Num t) (Some current) =
    Some (let s := (blink_scale (Num t) * baseSize color)%js in mk s s s) /\
  useFrame_callback color (Num t) None = None.
Proof.
  split; [|split; [|split]].
  - unfold blink_scale. cbn [nmul lift2 Math.sin Math.abs lift1].
    now rewrite (Rmult_comm t 2).
  - split; [apply Rabs_pos|].
    apply Rabs_le. pose proof (SIN_bound (2 * t)). lra.
  - reflexivity.
  - reflexivity.
Qed.

End GeometryFacts.

(* ================================================================== *)
(** * Facts about property lists                                       *)
(* ================================================================== *)

Module PropsFacts.

Section Props.
Context {A : Type}.
Implicit Types (o : props A) (k : string) (v : A).

Lemma lookup_In k v o : lookup k o = Some v -> In (k, v) o.
Proof.
  induction o as [|[k0 v0] o IH]; cbn; [discriminate|].
  destruct (String.eqb_spec k0 k) as [->|_].
  - intros [= ->]. now left.
  - intros H. right. now apply IH.
Qed.

Lemma lookup_None_keys k o : lookup k o = None -> ~ In k (map fst o).
Proof.
  induction o as [|[k0 v0] o IH]; cbn; [tauto|].
  destruct (String.eqb_spec k0 k) as [->|Hne]; [discriminate|].
  intros H [E|Hin]; [contradiction | now apply IH].
Qed.

Lemma In_lookup k v o : NoDup (map fst o) -> In (k, v) o -> lookup k o = Some v.
Proof.
  induction o as [|[k0 v0] o IH]; cbn; [tauto|].
  intros Hnd [E|Hin].
  - injection E as -> ->. now rewrite String.eqb_refl.
  - inversion Hnd as [|? ? Hnot Hnd']; subst.
    destruct (String.eqb_spec k0 k) as [->|_].
    + exfalso. apply Hnot. apply (in_map fst) in Hin. exact Hin.
    + now apply IH.
Qed.

Lemma keys_replace k v o : map fst (replace k v o) = map fst o.
Proof.
  induction o as [|[k0 v0] o IH]; cbn; [reflexivity|].
  destruct (String.eqb k0 k); cbn; [reflexivity | now rewrite IH].
Qed.

Lemma lookup_replace k v o k' :
  lookup k' (replace k v o) =
  if String.eqb k k' then option_map (fun _ => v) (lookup k o) else lookup k' o.
Proof.
  induction o as [|[k0 v0] o IH]; cbn.
  - now destruct (String.eqb k k').
  - destruct (String.eqb_spec k0 k) as [->|Hne]; cbn.
    + destruct (String.eqb_spec k k') as [->|Hne']; [reflexivity|].
      reflexivity.
    + destruct (String.eqb_spec k0 k') as [->|Hne'].
      * destruct (String.eqb_spec k k') as [->|_]; [contradiction | reflexivity].
      * exact IH.
Qed.

Lemma keys_insert_index n k v o :
  forall k', In k' (map fst (insert_index n k v o)) <-> k' = k \/ In k' (map fst o).
Proof.
  intros k'. induction o as [|[k0 v0] o IH]; cbn.
  - intuition.
  - destruct (array_index k0) as [m|]; [destruct (m <? n)%N|]; cbn; intuition.
Qed.

Lemma NoDup_insert_index n k v o :
  ~ In k (map fst o) -> NoDup (map fst o) -> NoDup (map fst (insert_index n k v o)).
Proof.
  induction o as [|[k0 v0] o IH]; cbn; intros Hnot Hnd.
  - constructor; [tauto | constructor].
  - inversion Hnd as [|? ? Hnot0 Hnd0]; subst.
    destruct (array_index k0) as [m|]; [destruct (m <? n)%N|].
    + cbn. constructor.
      * rewrite keys_insert_index. intros [->|H]; tauto.
      * apply IH; tauto.
    + constructor; [exact Hnot | exact Hnd].
    + constructor; [exact Hnot | exact Hnd].
Qed.

Lemma lookup_insert_index n k v o k' :
  lookup k o = None ->
  lookup k' (insert_index n k v o) =
  if String.eqb k k' then Some v else lookup k' o.
Proof.
  induction o as [|[k0 v0] o IH]; cbn.
  - reflexivity.
  - destruct (String.eqb_spec k0 k) as [->|Hk]; [discriminate|]. intros Hnone.
    destruct (array_index k0) as [m|]; [destruct (m <? n)%N|]; cbn; try reflexivity.
    destruct (String.eqb_spec k0 k') as [->|Hne].
    + destruct (String.eqb_spec k k') as [->|_]; [contradiction | reflexivity].
    + now apply IH.
Qed.

Lemma lookup_app_last k v o k' :
  lookup k o = None ->
  lookup k' (o ++ [(k, v)]) = if String.eqb k k' then Some v else lookup k' o.
Proof.
  induction o as [|[k0 v0] o IH]; cbn.
  - reflexivity.
  - destruct (String.eqb_spec k0 k) as [->|Hk]; [discriminate|]. intros Hnone.
    destruct (String.eqb_spec k0 k') as [->|Hne].
    + destruct (String.eqb_spec k k') as [->|_]; [contradiction | reflexivity].
    + now apply IH.
Qed.

(** Reading after writing. *)
Lemma lookup_Set_ o k v k' :
  lookup k' (Set_ o k v) = if String.eqb k k' then Some v else lookup k' o.
Proof.
  unfold Set_. destruct (lookup k o) as [w|] eqn:E.
  - rewrite lookup_replace, E. reflexivity.
  - destruct (array_index k).
    + now apply lookup_insert_index.
    + now apply lookup_app_last.
Qed.

(** Writing keeps the keys distinct. *)
Lemma NoDup_Set_ o k v :
  NoDup (map fst o) -> NoDup (map fst (Set_ o k v)).
Proof.
  intros Hnd. unfold Set_. destruct (lookup k o) as [w|] eqn:E.
  - now rewrite keys_replace.
  - apply lookup_None_keys in E. destruct (array_index k).
    + now apply NoDup_insert_index.
    + rewrite map_app. cbn. apply NoDup_app; [exact Hnd | repeat constructor; cbn; tauto |].
      intros a Ha [<-|[]]. contradiction.
Qed.

End Props.
End PropsFacts.

(* ================================================================== *)
(** * The grouping of neighbors by airport                             *)
(* ================================================================== *)

Module GroupFacts.
Import Globe Persons PropsFacts.

Section Groups.
Variable upcase : string -> string.

#[local] Abbreviation has_code := (has_code upcase).
#[local] Abbreviation group_of := (group_of upcase).
#[local] Abbreviation grouped := (grouped upcase).
#[local] Abbreviation group_neighbor := (group_neighbor upcase).
#[local] Abbreviation airportGroups := (airportGroups upcase).

Lemma grouped_nil : grouped [] [].
Proof. split; [constructor | reflexivity]. Qed.

Lemma group_of_skip code seen n :
  has_code code n = false -> group_of code (seen ++ [n]) = group_of code seen.
Proof.
  intros H. unfold Persons.group_of. rewrite filter_app. cbn. rewrite H.
  now rewrite app_nil_r.
Qed.

Lemma group_of_take code seen n :
  has_code code n = true ->
  group_of code (seen ++ [n]) = Some (filter (has_code code) seen ++ [n]).
Proof.
  intros H. unfold Persons.group_of. rewrite filter_app. cbn. rewrite H.
  destruct (filter (has_code code) seen); reflexivity.
Qed.

Lemma group_neighbor_grouped seen gs n gs' :
  grouped seen gs -> group_neighbor gs n = Normal gs' -> grouped (seen ++ [n]) gs'.
Proof.
  intros [Hnd Hl]. unfold Globe.group_neighbor.
  destruct (Get n "airport") as [a|] eqn:Ea; cbn; [|discriminate].
  destruct (truthy a) eqn:Ta; cbn.
  - destruct a as [| | | |s| |]; cbn; try discriminate.
    assert (Hc : forall c, has_code c n = String.eqb (upcase s) c).
    { intros c. unfold Persons.has_code, airport_code. now rewrite Ea, Ta. }
    set (code := upcase s) in *.
    set (gs1 := match lookup code gs with None => Set_ gs code [] | Some _ => gs end).
    assert (H1 : NoDup (map fst gs1) /\
                 lookup code gs1 = Some (filter (has_code code) seen) /\
                 forall c, c <> code -> lookup c gs1 = lookup c gs).
    { unfold gs1. destruct (lookup code gs) as [ms|] eqn:El.
      - split; [exact Hnd|]. split; [|reflexivity].
        rewrite El. rewrite Hl in El. unfold Persons.group_of in El.
        destruct (filter (has_code code) seen); [discriminate | now symmetry].
      - split; [now apply NoDup_Set_|]. split.
        + rewrite lookup_Set_, String.eqb_refl. rewrite Hl in El.
          unfold Persons.group_of in El.
          destruct (filter (has_code code) seen); [reflexivity | discriminate].
        + intros c Hne. rewrite lookup_Set_.
          destruct (String.eqb_spec code c); [congruence | reflexivity]. }
    destruct H1 as (Hnd1 & Hl1 & Hother). rewrite Hl1. intros [= <-].
    split; [now apply NoDup_Set_|].
    intros c. rewrite lookup_Set_.
    destruct (String.eqb_spec code c) as [<-|Hne].
    + rewrite group_of_take; [reflexivity|]. rewrite Hc. apply String.eqb_refl.
    + rewrite group_of_skip.
      * rewrite Hother by congruence. apply Hl.
      * rewrite Hc. now apply String.eqb_neq.
  - intros [= <-]. split; [exact Hnd|].
    intros c. rewrite group_of_skip; [apply Hl|].
    unfold Persons.has_code, airport_code. rewrite Ea.
    destruct a; try reflexivity. now rewrite Ta.
Qed.

Lemma reduce_grouped l : forall seen gs gs',
  grouped seen gs -> reduce group_neighbor l gs = Normal gs' -> grouped (seen ++ l) gs'.
Proof.
  induction l as [|n l IH]; cbn; intros seen gs gs' Hg.
  - intros [= <-]. now rewrite app_nil_r.
  - destruct (group_neighbor gs n) as [gs1|] eqn:E; cbn; [|discriminate].
    intros H. replace (seen ++ n :: l) with ((seen ++ [n]) ++ l)
      by now rewrite <- app_assoc.
    eapply IH; [|exact H]. eapply group_neighbor_grouped; eassumption.
Qed.

Lemma airportGroups_grouped neighbors gs :
  airportGroups neighbors = Normal gs -> grouped neighbors gs.
Proof.
  intros H. apply (reduce_grouped neighbors [] [] gs grouped_nil H).
Qed.

End Groups.

(** *** The upper-casing matters on the codes of the data only *)

Lemma group_neighbor_ext (up1 up2 : string -> string) gs n :
  (forall s, Get n "airport" = Normal (VStr s) -> up1 s = up2 s) ->
  group_neighbor up1 gs n = group_neighbor up2 gs n.
Proof.
  intros H. unfold group_neighbor.
  destruct (Get n "airport") as [a|]; [|reflexivity]. cbn [JS.bind].
  destruct (negb (truthy a)); [reflexivity|].
  destruct a; try reflexivity. cbn [toUpperCase JS.bind].
  now rewrite (H s eq_refl).
Qed.

Lemma airportGroups_ext (up1 up2 : string -> string) neighbors :
  (forall n s, In n neighbors -> Get n "airport" = Normal (VStr s) -> up1 s = up2 s) ->
  airportGroups up1 neighbors = airportGroups up2 neighbors.
Proof.
  unfold airportGroups. generalize (@nil (string * list value)).
  induction neighbors as [|n l IH]; intros gs H; [reflexivity|].
  cbn [reduce]. rewrite (group_neighbor_ext up1 up2 gs n).
  - destruct (group_neighbor up2 gs n) as [gs'|]; [|reflexivity].
    cbn [JS.bind]. apply IH. intros m s Hm. apply H. now right.
  - intros s. apply H. now left.
Qed.

Lemma airport_matches_ext (up1 up2 : string -> string) code a :
  (forall k s, k = "iata" \/ k = "icao" -> Get a k = Normal (VStr s) -> up1 s = up2 s) ->
  airport_matches up1 code a = airport_matches up2 code a.
Proof.
  intros H. unfold airport_matches.
  assert (E : forall k, k = "iata" \/ k = "icao" ->
                (v <- Get a k ;; opt_toUpperCase up1 v)
                = (v <- Get a k ;; opt_toUpperCase up2 v)).
  { intros k Hk. specialize (H k). destruct (Get a k) as [v|]; [|reflexivity].
    cbn [JS.bind]. destruct v; try reflexivity.
    unfold opt_toUpperCase. cbn. now rewrite (H s Hk eq_refl). }
  pose proof (E "iata" (or_introl eq_refl)) as Ei.
  pose proof (E "icao" (or_intror eq_refl)) as Ec.
  destruct (Get a "iata") as [vi|]; [|reflexivity]. cbn [JS.bind] in *.
  rewrite Ei. destruct (opt_toUpperCase up2 vi) as [ui|]; [|reflexivity].
  cbn [JS.bind]. destruct (strict_eq_str ui code); [reflexivity|].
  destruct (Get a "icao") as [vc|]; [|reflexivity]. cbn [JS.bind] in *.
  now rewrite Ec.
Qed.

Lemma find_airport_ext (up1 up2 : string -> string) table code :
  (forall a k s, In a (map snd table) -> k = "iata" \/ k = "icao" ->
                 Get a k = Normal (VStr s) -> up1 s = up2 s) ->
  find_airport up1 (VObj table) code = find_airport up2 (VObj table) code.
Proof.
  unfold find_airport, Object_values. cbn [Object_entries JS.bind].
  induction (map snd table) as [|a l IH]; intros H; [reflexivity|].
  cbn [array_find]. rewrite (airport_matches_ext up1 up2 code a).
  - destruct (airport_matches up2 code a) as [[|]|]; try reflexivity.
    cbn [JS.bind]. apply IH. intros b k s Hb. apply H. now right.
  - intros k s. apply H. now left.
Qed.

Lemma group_dots_ext (up1 up2 : string -> string) S2N O2N airportsData code members :
  find_airport up1 airportsData code = find_airport up2 airportsData code ->
  group_dots up1 S2N O2N airportsData (code, members)
  = group_dots up2 S2N O2N airportsData (code, members).
Proof. intros H. unfold group_dots. now rewrite H. Qed.

End GroupFacts.

(* ================================================================== *)
(** * The marker layer                                                 *)
(* ================================================================== *)

Module MarkerFacts.
Import Globe Persons PropsFacts GroupFacts NumberFacts.

Section Markers.
Variable upcase : string -> string.
Variable StringToNumber : string -> number.
Variable ObjectToNumber : value -> number.

#[local] Abbreviation dot_color := (dot_color StringToNumber ObjectToNumber).
#[local] Abbreviation group_dots := (group_dots upcase StringToNumber ObjectToNumber).
#[local] Abbreviation AirportDots := (AirportDots upcase StringToNumber ObjectToNumber).
#[local] Abbreviation ge_num := (ge_num StringToNumber ObjectToNumber).
#[local] Abbreviation blinking_dot := (blinking_dot StringToNumber ObjectToNumber).
#[local] Abbreviation has_code := (has_code upcase).
#[local] Abbreviation grouped := (grouped upcase).
#[local] Abbreviation group_neighbor := (group_neighbor upcase).
#[local] Abbreviation airportGroups := (airportGroups upcase).
#[local] Abbreviation airport_matches := (airport_matches upcase).
#[local] Abbreviation find_airport := (find_airport upcase).
#[local] Abbreviation goes_by := (goes_by upcase).
#[local] Abbreviation airport_of := (airport_of upcase).

Lemma Get_total v k : nullish v = false -> exists w, Get v k = Normal w.
Proof.
  destruct v as [| | | | | |o]; cbn; try discriminate; intros _; eauto.
  - destruct (array_index k); [eauto|]. destruct (k =? "length"); eauto.
  - destruct (array_index k); [eauto|]. destruct (k =? "length"); eauto.
  - destruct (lookup k o); eauto.
Qed.

Lemma truthy_not_nullish v : truthy v = true -> nullish v = false.
Proof. destruct v; cbn; congruence. Qed.

(** C4.  The classification of a person is total and goes by priority:
    a truthy approval flag gives green and the base size 0.015;
    otherwise hours [>= 100] give yellow and 0.0105, which is 0.7 times
    0.015; otherwise the dot is red with 0.0075, which is 0.5 times
    0.015.  A flag or an hours field that is [undefined] fails its
    test. *)
Theorem classification (neighbor : value) :
  nullish neighbor = false ->
  exists approved hours c,
    Get neighbor "approvedFlightStipend" = Normal approved /\
    Get neighbor "totalTimeHackatimeHours" = Normal hours /\
    dot_color neighbor = Normal c /\
    (if truthy approved then c = "#00ff00" /\ baseSize c = Num 0.015
     else if ge_num hours (Num 100)
          then c = "#ffff00" /\ baseSize c = Num 0.0105
          else c = "red" /\ baseSize c = Num 0.0075) /\
    (0.0105 = 0.7 * 0.015 /\ 0.0075 = 0.5 * 0.015)%R /\
    (forall h : R, ge_num (VNum (Num h)) (Num 100) = true <-> (100 <= h)%R) /\
    truthy VUndefined = false /\
    ge_num VUndefined (Num 100) = false.
Proof.
  intros Hn.
  destruct (Get_total neighbor "approvedFlightStipend" Hn) as [approved Ea].
  destruct (Get_total neighbor "totalTimeHackatimeHours" Hn) as [hours Eh].
  exists approved, hours.
  exists (if truthy approved then "#00ff00"
          else if ge_num hours (Num 100) then "#ffff00" else "red").
  split; [exact Ea|]. split; [exact Eh|]. split.
  { unfold Globe.dot_color. rewrite Ea. cbn. destruct (truthy approved); [reflexivity|].
    rewrite Eh. cbn. now destruct (ge_num hours (Num 100)). }
  split.
  { destruct (truthy approved); [now split|].
    destruct (ge_num hours (Num 100)); now split. }
  split; [split; lra|]. split; [|split; reflexivity].
  intros h. unfold JS.ge_num, nge. cbn.
  destruct (Rge_dec h 100); split; intros; try lra; try discriminate; reflexivity.
Qed.


Lemma unmatched_dropped airportsData code members :
  find_airport airportsData code = Normal VUndefined ->
  group_dots airportsData (code, members) = Normal None.
Proof. intros H. unfold Globe.group_dots. now rewrite H. Qed.

(** *** Which airport a code finds *)

Lemma opt_toUpperCase_field (v : option value) :
  code_field v = true ->
  opt_toUpperCase upcase (match v with Some w => w | None => VUndefined end)
  = Normal (match v with
            | Some (VStr s) => VStr (upcase s)
            | _ => VUndefined
            end).
Proof. destruct v as [[| | | |s| |]|]; cbn; try discriminate; reflexivity. Qed.

Lemma spells_strict_eq (v : option value) code :
  strict_eq_str (match v with
                 | Some (VStr s) => VStr (upcase s)
                 | _ => VUndefined
                 end) code
  = spells upcase code v.
Proof. destruct v as [[| | | |s| |]|]; reflexivity. Qed.

Lemma Get_lookup o k :
  Get (VObj o) k = Normal (match lookup k o with Some w => w | None => VUndefined end).
Proof. cbn [Get]. destruct (lookup k o); reflexivity. Qed.

(** On an airport record the predicate of [find] does not throw and
    tells whether the record goes by the code. *)
Lemma airport_matches_goes_by code a :
  airport_record a = true -> airport_matches code a = Normal (goes_by code a).
Proof.
  destruct a as [| | | | | |o]; try discriminate. cbn [airport_record].
  intros H. apply andb_prop in H as [Hi Hc].
  unfold Globe.airport_matches. rewrite !Get_lookup. cbn [JS.bind].
  rewrite (opt_toUpperCase_field _ Hi). cbn [JS.bind].
  rewrite spells_strict_eq. cbn [Persons.goes_by].
  destruct (spells upcase code (lookup "iata" o)); [reflexivity|].
  rewrite (opt_toUpperCase_field _ Hc). cbn [JS.bind orb].
  now rewrite spells_strict_eq.
Qed.

Lemma array_find_goes_by code (l : list value) :
  forallb airport_record l = true ->
  array_find (airport_matches code) l
  = Normal (match find (goes_by code) l with Some a => a | None => VUndefined end).
Proof.
  induction l as [|a l IH]; [reflexivity|].
  cbn [forallb]. intros H. apply andb_prop in H as [Ha Hl].
  cbn [array_find find]. rewrite (airport_matches_goes_by code a Ha). cbn [JS.bind].
  destruct (Persons.goes_by upcase code a); [reflexivity | exact (IH Hl)].
Qed.

Lemma find_airport_first table code :
  forallb airport_record (map snd table) = true ->
  find_airport (VObj table) code = Normal (airport_of table code).
Proof.
  intros H. unfold Globe.find_airport, Object_values. cbn [Object_entries JS.bind].
  now apply array_find_goes_by.
Qed.

Lemma find_none (A : Type) (p : A -> bool) (l : list A) :
  existsb p l = false -> find p l = None.
Proof.
  induction l as [|a l IH]; [reflexivity|].
  cbn. destruct (p a); [discriminate | exact IH].
Qed.

(** *** The example *)

Lemma ascii_groups :
  Globe.airportGroups upper [p_sfo; p_SFO; p_null; p_xyz]
  = Normal [("SFO", [p_sfo; p_SFO]); ("XYZ", [p_xyz])].
Proof. reflexivity. Qed.

Lemma ascii_sfo_dots :
  Globe.group_dots upper StringToNumber ObjectToNumber only_sfo ("SFO", [p_sfo; p_SFO])
  = Normal (Some [sfo_dot p_sfo 0; sfo_dot p_SFO 1]).
Proof.
  unfold Globe.group_dots.
  change (Globe.find_airport upper only_sfo "SFO") with (Normal sfo_record).
  cbn [JS.bind truthy sfo_record negb].
  change (Get sfo_record "lat") with (Normal (VNum (Num 37.62))).
  cbn [JS.bind]. rewrite truthy_Num by lra. cbn [negb].
  change (Get sfo_record "lon") with (Normal (VNum (Num (-122.38)))).
  cbn [JS.bind]. rewrite truthy_Num by lra. cbn [negb].
  reflexivity.
Qed.

Lemma ascii_single_dot code neighbor :
  Globe.find_airport upper only_lower_sfo code = Normal lower_sfo_record ->
  Get neighbor "slackId" = Normal VUndefined ->
  dot_color neighbor = Normal "red" ->
  Globe.group_dots upper StringToNumber ObjectToNumber only_lower_sfo (code, [neighbor])
  = Normal (Some [single_dot neighbor]).
Proof.
  intros Hf Hs Hc. unfold Globe.group_dots. rewrite Hf.
  cbn [JS.bind truthy lower_sfo_record negb].
  change (Get lower_sfo_record "lat") with (Normal (VNum (Num 37.62))).
  cbn [JS.bind]. rewrite truthy_Num by lra. cbn [negb].
  change (Get lower_sfo_record "lon") with (Normal (VNum (Num (-122.38)))).
  cbn [JS.bind]. rewrite truthy_Num by lra. cbn [negb].
  cbn [List.length array_map map_from]. unfold Globe.blinking_dot.
  rewrite Hs, Hc. reflexivity.
Qed.

Lemma example_groups :
  ascii_upper upcase ->
  airportGroups [p_sfo; p_SFO; p_null; p_xyz]
  = Normal [("SFO", [p_sfo; p_SFO]); ("XYZ", [p_xyz])].
Proof.
  intros Hup. rewrite (airportGroups_ext upcase upper); [exact ascii_groups|].
  intros n s Hn Hg. apply Hup.
  repeat (destruct Hn as [<-|Hn]; [cbn in Hg; now inversion Hg|]). contradiction.
Qed.

Lemma example_find table code :
  ascii_upper upcase ->
  table = [("KSFO", sfo_record)] \/ table = [("ksfo", lower_sfo_record)] ->
  find_airport (VObj table) code = Globe.find_airport upper (VObj table) code.
Proof.
  intros Hup Ht. apply find_airport_ext. intros a k s Ha Hk Hg. apply Hup.
  destruct Ht as [-> | ->]; cbn in Ha; destruct Ha as [<-|[]];
    destruct Hk as [-> | ->]; cbn in Hg; now inversion Hg.
Qed.

Lemma example_sfo_dots :
  ascii_upper upcase ->
  group_dots only_sfo ("SFO", [p_sfo; p_SFO])
  = Normal (Some [sfo_dot p_sfo 0; sfo_dot p_SFO 1]).
Proof.
  intros Hup. rewrite (group_dots_ext upcase upper); [exact ascii_sfo_dots|].
  apply example_find; [exact Hup | now left].
Qed.

Lemma example_unmatched :
  ascii_upper upcase -> group_dots only_sfo ("XYZ", [p_xyz]) = Normal None.
Proof.
  intros Hup. apply unmatched_dropped.
  unfold only_sfo. rewrite example_find; [reflexivity | exact Hup | now left].
Qed.

Lemma example_dots :
  ascii_upper upcase ->
  AirportDots [p_sfo; p_SFO; p_null; p_xyz] only_sfo
  = Normal [sfo_dot p_sfo 0; sfo_dot p_SFO 1].
Proof.
  intros Hup. unfold Globe.AirportDots. rewrite (example_groups Hup).
  cbn [JS.bind array_map map_from].
  rewrite (example_sfo_dots Hup). cbn [JS.bind].
  rewrite (example_unmatched Hup).
  reflexivity.
Qed.

(** Matching goes through the upper-casing on both sides and through
    either code: an airport filed in lower case is found by its ICAO code
    and by its IATA code, given in mixed case. *)
Lemma example_either_code :
  ascii_upper upcase ->
  AirportDots [p_kSFO; p_Sfo] only_lower_sfo
  = Normal [single_dot p_kSFO; single_dot p_Sfo].
Proof.
  intros Hup. unfold Globe.AirportDots.
  rewrite (airportGroups_ext upcase upper).
  2:{ intros n s Hn Hg. apply Hup.
      repeat (destruct Hn as [<-|Hn]; [cbn in Hg; now inversion Hg|]). contradiction. }
  change (Globe.airportGroups upper [p_kSFO; p_Sfo])
    with (@Normal Groups [("KSFO", [p_kSFO]); ("SFO", [p_Sfo])]).
  cbn [JS.bind array_map map_from].
  rewrite (group_dots_ext upcase upper _ _ only_lower_sfo "KSFO")
    by (apply example_find; [exact Hup | now right]).
  rewrite (ascii_single_dot "KSFO" p_kSFO) by reflexivity. cbn [JS.bind].
  rewrite (group_dots_ext upcase upper _ _ only_lower_sfo "SFO")
    by (apply example_find; [exact Hup | now right]).
  rewrite (ascii_single_dot "SFO" p_Sfo) by reflexivity.
  reflexivity.
Qed.


(** *** Grouping *)

Lemma grouped_In neighbors gs code members :
  grouped neighbors gs ->
  (In (code, members) gs <->
   members = filter (has_code code) neighbors /\ members <> []).
Proof.
  intros [Hnd Hl]. split.
  - intros Hin. apply (In_lookup _ _ _ Hnd) in Hin.
    rewrite Hl in Hin. unfold group_of in Hin.
    destruct (filter (has_code code) neighbors) eqn:E; [discriminate|].
    injection Hin as <-. split; [reflexivity | discriminate].
  - intros [-> Hne]. apply lookup_In. rewrite Hl. unfold group_of.
    destruct (filter (has_code code) neighbors); [contradiction | reflexivity].
Qed.

(** *** Totality on well-typed persons *)

Lemma group_neighbor_total gs n :
  well_typed_person n = true -> exists gs', group_neighbor gs n = Normal gs'.
Proof.
  destruct n as [| | | | | |o]; try discriminate. unfold Globe.group_neighbor. cbn.
  destruct (lookup "airport" o) as [[| | | |s| |]|]; try discriminate; intros _;
    cbn; eauto.
  destruct (negb (String.eqb s EmptyString)); cbn; [|eauto].
  destruct (lookup (upcase s) gs) as [ms|] eqn:E.
  - rewrite E. eauto.
  - rewrite lookup_Set_, String.eqb_refl. eauto.
Qed.

Lemma airportGroups_total neighbors :
  forallb well_typed_person neighbors = true ->
  exists gs, airportGroups neighbors = Normal gs.
Proof.
  unfold Globe.airportGroups. generalize (@nil (string * list value)).
  induction neighbors as [|n l IH]; cbn; intros gs H; [eauto|].
  apply andb_true_iff in H as [Hn Hl].
  destruct (group_neighbor_total gs n Hn) as [gs' ->]. cbn. now apply IH.
Qed.

Lemma map_from_null (f : string * list value -> nat -> completion (option (list BlinkingDot))) l :
  (forall e i, f e i = Normal None) ->
  forall i, map_from i f l = Normal (map (fun _ => None) l).
Proof.
  intros Hf. induction l as [|e l IH]; intros i; cbn; [reflexivity|].
  now rewrite Hf, IH.
Qed.

Lemma no_dots_of_nulls (l : list (string * list value)) :
  filter_Boolean (flat (map (fun _ => @None (list BlinkingDot)) l)) = [].
Proof. induction l; cbn; auto. Qed.

Lemma empty_table_no_airport code : find_airport (VObj []) code = Normal VUndefined.
Proof. reflexivity. Qed.

(** C7.  An empty list of persons gives no dot and no error, whatever
    the airport table is; so does an empty airport table on a list of
    well-typed persons. *)
Theorem empty_inputs (neighbors : list value) (airportsData : value) :
  forallb well_typed_person neighbors = true ->
  AirportDots [] airportsData = Normal [] /\
  AirportDots neighbors (VObj []) = Normal [].
Proof.
  intros H. split; [reflexivity|].
  destruct (airportGroups_total neighbors H) as [gs E].
  unfold Globe.AirportDots. rewrite E. cbn [JS.bind]. unfold array_map.
  rewrite map_from_null.
  - cbn [JS.bind]. now rewrite no_dots_of_nulls.
  - intros [code members] _. apply unmatched_dropped, empty_table_no_airport.
Qed.

(** C9.  When the airport found for a group has a falsy [lat] or a
    falsy [lon], and the number 0 is falsy, the group gives [null],
    which is what a group gives when no airport matches its code. *)
Theorem zero_coordinate_dropped
        (airportsData unmatched : value) (code : string) (members : list value)
        (airport lat lon : value) :
  find_airport airportsData code = Normal airport ->
  Get airport "lat" = Normal lat ->
  Get airport "lon" = Normal lon ->
  truthy lat = false \/ truthy lon = false ->
  find_airport unmatched code = Normal VUndefined ->
  truthy (VNum (Num 0)) = false /\
  group_dots airportsData (code, members) = Normal None /\
  group_dots unmatched (code, members) = group_dots airportsData (code, members).
Proof.
  intros Hf Hlat Hlon Hz Hu.
  assert (Hd : group_dots airportsData (code, members) = Normal None).
  { unfold Globe.group_dots. rewrite Hf. cbn [JS.bind].
    destruct (truthy airport); cbn [negb]; [|reflexivity].
    rewrite Hlat. cbn [JS.bind].
    destruct (truthy lat) eqn:Tlat; cbn [negb]; [|reflexivity].
    rewrite Hlon. cbn [JS.bind].
    destruct Hz as [Hz|Hz]; [discriminate|]. now rewrite Hz. }
  split; [apply falsy_zero|]. split; [exact Hd|].
  rewrite Hd. now apply unmatched_dropped.
Qed.

(** C5.  Grouping, for whatever the upper-casing is.  The groups have
    distinct codes; the group of a code holds the persons whose airport
    code, upper-cased, is that code, in the order of the input, and no
    group is empty; a person in a group has a non-empty string as
    airport code.  In a table of airport records a code finds the first
    record whose IATA code or ICAO code, upper-cased, is the code, and a
    group whose code no record goes by gives [null].  On the example,
    whose text is ASCII and so upper-cased letter by letter, the groups
    are SFO with the first two persons and XYZ with the last, XYZ gives
    [null], and the dots are those of the two SFO persons in input
    order; and an airport filed in lower case is found by its ICAO and by
    its IATA code in mixed case. *)
Theorem groupByAirport (neighbors : list value) (gs : Groups) :
  airportGroups neighbors = Normal gs ->
  NoDup (map fst gs) /\
  (forall code members,
      In (code, members) gs <->
      members = filter (has_code code) neighbors /\ members <> []) /\
  (forall code members neighbor,
      In (code, members) gs -> In neighbor members ->
      exists s, Get neighbor "airport" = Normal (VStr s) /\ s <> EmptyString /\
                upcase s = code) /\
  (forall table code members,
      forallb airport_record (map snd table) = true ->
      find_airport (VObj table) code = Normal (airport_of table code) /\
      (existsb (goes_by code) (map snd table) = false ->
       group_dots (VObj table) (code, members) = Normal None)) /\
  (ascii_upper upcase ->
   airportGroups [p_sfo; p_SFO; p_null; p_xyz]
     = Normal [("SFO", [p_sfo; p_SFO]); ("XYZ", [p_xyz])] /\
   group_dots only_sfo ("XYZ", [p_xyz]) = Normal None /\
   AirportDots [p_sfo; p_SFO; p_null; p_xyz] only_sfo
     = Normal [sfo_dot p_sfo 0; sfo_dot p_SFO 1] /\
   AirportDots [p_kSFO; p_Sfo] only_lower_sfo
     = Normal [single_dot p_kSFO; single_dot p_Sfo]).
Proof.
  intros H. pose proof (airportGroups_grouped _ _ _ H) as Hg.
  split; [apply Hg|]. split; [intros; now apply grouped_In|]. split.
  { intros code members n Hin Hn.
    apply (grouped_In _ _ code members Hg) in Hin as [-> _].
    apply filter_In in Hn as [_ Hc].
    unfold Persons.has_code, airport_code in Hc.
    destruct (Get n "airport") as [[| | | |s| |]|]; try discriminate.
    destruct (truthy (VStr s)) eqn:T; [|discriminate].
    exists s. split; [reflexivity|]. split.
    - intros ->. discriminate.
    - now apply String.eqb_eq. }
  split.
  { intros table code members Ht. split; [now apply find_airport_first|].
    intros Hn. apply unmatched_dropped. rewrite (find_airport_first _ _ Ht).
    unfold Persons.airport_of. now rewrite (find_none _ _ _ Hn). }
  intros Hup.
  split; [now apply example_groups|]. split; [now apply example_unmatched|].
  split; [now apply example_dots | now apply example_either_code].
Qed.

End Markers.

(** The classification examples: approved with 5 hours is green, not
    approved with 150 hours is yellow, not approved with 10 hours is
    red. *)
Example classify_green :
  dot_color no_literal no_object_number (person true 5) = Normal "#00ff00".
Proof. reflexivity. Qed.

Example classify_yellow :
  dot_color no_literal no_object_number (person false 150) = Normal "#ffff00".
Proof.
  unfold dot_color, person. cbn [Get lookup String.eqb Ascii.eqb Bool.eqb JS.bind truthy].
  unfold ge_num. cbn [ToNumber]. rewrite nge_Num by lra. reflexivity.
Qed.

Example classify_red :
  dot_color no_literal no_object_number (person false 10) = Normal "red".
Proof.
  unfold dot_color, person. cbn [Get lookup String.eqb Ascii.eqb Bool.eqb JS.bind truthy].
  unfold ge_num. cbn [ToNumber]. rewrite nge_Num_lt by lra. reflexivity.
Qed.

(** Integer-like codes are enumerated first and in numeric order, the
    others in the order of their first neighbor. *)
Example group_order :
  match airportGroups upper [VObj [("airport", VStr "b")]; VObj [("airport", VStr "10")];
                       VObj [("airport", VStr "2")]; VObj [("airport", VStr "a")];
                       VObj [("airport", VStr "B")]] with
  | Normal gs => map fst gs = ["2"; "10"; "B"; "A"]
  | Throw _ => False
  end.
Proof. vm_compute. reflexivity. Qed.

(** A neighbor whose airport is not a string makes the grouping throw. *)
Example group_throws :
  airportGroups upper [VObj [("airport", VNum (Num 5))]] = Throw TypeError.
Proof.
  unfold airportGroups. cbn [reduce]. unfold group_neighbor.
  cbn [Get lookup String.eqb Ascii.eqb Bool.eqb JS.bind].
  rewrite truthy_Num by lra. reflexivity.
Qed.

Lemma classification_witness :
  nullish (person true 5) = false /\
  exists approved hours c,
    Get (person true 5) "approvedFlightStipend" = Normal approved /\
    Get (person true 5) "totalTimeHackatimeHours" = Normal hours /\
    dot_color no_literal no_object_number (person true 5) = Normal c /\
    (if truthy approved then c = "#00ff00" /\ baseSize c = Num 0.015
     else if ge_num no_literal no_object_number hours (Num 100)
          then c = "#ffff00" /\ baseSize c = Num 0.0105
          else c = "red" /\ baseSize c = Num 0.0075) /\
    (0.0105 = 0.7 * 0.015 /\ 0.0075 = 0.5 * 0.015)%R /\
    (forall h : R,
        ge_num no_literal no_object_number (VNum (Num h)) (Num 100) = true
        <-> (100 <= h)%R) /\
    truthy VUndefined = false /\
    ge_num no_literal no_object_number VUndefined (Num 100) = false.
Proof.
  split; [reflexivity|].
  apply (classification no_literal no_object_number (person true 5)). reflexivity.
Defined.

Lemma empty_inputs_witness :
  forallb well_typed_person [p_sfo; p_null] = true /\
  AirportDots upper no_literal no_object_number [] only_sfo = Normal [] /\
  AirportDots upper no_literal no_object_number [p_sfo; p_null] (VObj []) = Normal [].
Proof.
  split; [reflexivity|].
  apply (empty_inputs upper no_literal no_object_number [p_sfo; p_null] only_sfo).
  reflexivity.
Defined.

Lemma zero_coordinate_dropped_witness :
  (find_airport upper only_equator "UIO" = Normal equator_record /\
   Get equator_record "lat" = Normal (VNum (Num 0)) /\
   Get equator_record "lon" = Normal (VNum (Num (-78.36))) /\
   find_airport upper (VObj []) "UIO" = Normal VUndefined) /\
  truthy (VNum (Num 0)) = false /\
  group_dots upper no_literal no_object_number only_equator ("UIO", [p_sfo])
  = Normal None /\
  group_dots upper no_literal no_object_number (VObj []) ("UIO", [p_sfo])
  = group_dots upper no_literal no_object_number only_equator ("UIO", [p_sfo]).
Proof.
  split; [repeat split; reflexivity|].
  apply (zero_coordinate_dropped upper no_literal no_object_number
           only_equator (VObj []) "UIO" [p_sfo]
           equator_record (VNum (Num 0)) (VNum (Num (-78.36))));
    try reflexivity.
  left. apply falsy_zero.
Defined.

Lemma ascii_upper_upper : ascii_upper upper.
Proof. intros s _. reflexivity. Defined.

Lemma groupByAirport_witness :
  airportGroups upper [p_sfo; p_SFO; p_null; p_xyz]
  = Normal [("SFO", [p_sfo; p_SFO]); ("XYZ", [p_xyz])] /\
  (forall code members,
      In (code, members) [("SFO", [p_sfo; p_SFO]); ("XYZ", [p_xyz])] <->
      members = filter (has_code upper code) [p_sfo; p_SFO; p_null; p_xyz]
      /\ members <> []) /\
  find_airport upper only_lower_sfo "KSFO" = Normal lower_sfo_record /\
  AirportDots upper no_literal no_object_number [p_kSFO; p_Sfo] only_lower_sfo
  = Normal [single_dot p_kSFO; single_dot p_Sfo].
Proof.
  split; [reflexivity|].
  pose proof (groupByAirport upper no_literal no_object_number
                [p_sfo; p_SFO; p_null; p_xyz]
                [("SFO", [p_sfo; p_SFO]); ("XYZ", [p_xyz])]
                eq_refl)
    as (_ & Hgroups & _ & Hfind & Hexample).
  destruct (Hexample ascii_upper_upper) as (_ & _ & _ & Heither).
  split; [exact Hgroups|]. split; [|exact Heither].
  exact (proj1 (Hfind [("ksfo", lower_sfo_record)] "KSFO" [] eq_refl)).
Defined.

End MarkerFacts.

(* ================================================================== *)
(** * The records of the API route                                     *)
(* ================================================================== *)

Module ApiFacts.
Import Globe Persons Api.

Section Route.
Variable StringToNumber : string -> number.
Variable ObjectToNumber : value -> number.

#[local] Abbreviation neighbor_of_record := (neighbor_of_record StringToNumber ObjectToNumber).
#[local] Abbreviation map_records := (map_records StringToNumber ObjectToNumber).
#[local] Abbreviation handler := (handler StringToNumber ObjectToNumber).
#[local] Abbreviation dot_color := (dot_color StringToNumber ObjectToNumber).
#[local] Abbreviation plain_record := (plain_record StringToNumber ObjectToNumber).

Lemma Get_object o k : exists w, Get (VObj o) k = Normal w.
Proof. cbn. destruct (lookup k o); eauto. Qed.

Lemma opt_Get_total v k : exists w, opt_Get v k = Normal w.
Proof.
  unfold opt_Get. destruct (nullish v) eqn:E; [eauto|].
  destruct v as [| | | | | |o]; cbn in *; try discriminate; eauto.
  - destruct (array_index k); [eauto|]. destruct (k =? "length"); eauto.
  - destruct (array_index k); [eauto|]. destruct (k =? "length"); eauto.
  - destruct (lookup k o); eauto.
Qed.

Lemma or_else_defined v d : d <> VUndefined -> or_else v d <> VUndefined.
Proof.
  intros Hd. unfold or_else. destruct (truthy v) eqn:T; [|exact Hd].
  intros ->. discriminate.
Qed.

(** The record built for one Airtable row. *)
Lemma neighbor_of_record_shape r :
  exists pfp slackId slackFullName githubUsername combined hackatime stopwatch
         fullName checked,
    neighbor_of_record r =
    Normal (VObj [ ("id", VStr (id r)); ("pfp", pfp); ("slackId", slackId);
                   ("slackFullName", slackFullName);
                   ("githubUsername", githubUsername);
                   ("totalTimeCombinedHours", combined);
                   ("totalTimeHackatimeHours", hackatime);
                   ("totalTimeStopwatchHours", stopwatch);
                   ("fullName", fullName); ("totalCheckedTime", checked);
                   ("airport", match lookup "airport" (fields r) with
                               | Some a => a
                               | None => VUndefined
                               end) ]) /\
    Forall (fun v => v <> VUndefined)
           [pfp; slackId; slackFullName; githubUsername; combined; hackatime;
            stopwatch; fullName; checked].
Proof.
  unfold Api.neighbor_of_record.
  destruct (Get_object (fields r) "Pfp (from slackNeighbor)") as [a ->].
  cbn [JS.bind].
  destruct (opt_Get_total a "0") as [a0 ->]. cbn [JS.bind].
  destruct (opt_Get_total a0 "url") as [url ->]. cbn [JS.bind].
  destruct (Get_object (fields r) "Slack ID (from slackNeighbor)") as [v1 ->].
  destruct (Get_object (fields r) "Full Name (from slackNeighbor)") as [v2 ->].
  destruct (Get_object (fields r) "githubUsername") as [v3 ->].
  destruct (Get_object (fields r) "totalTimeCombinedHours") as [v4 ->].
  destruct (Get_object (fields r) "totalTimeHackatimeHours") as [v5 ->].
  destruct (Get_object (fields r) "totalTimeStopwatchHours") as [v6 ->].
  destruct (Get_object (fields r) "Full Name") as [v7 ->].
  destruct (Get_object (fields r) "totalCheckedTime") as [v8 ->].
  cbn [JS.bind].
  do 9 eexists. split.
  - cbn [Get JS.bind]. destruct (lookup "airport" (fields r)); reflexivity.
  - repeat constructor; try (apply or_else_defined; discriminate); discriminate.
Qed.

Lemma lookup_absent {A} k (o : props A) : ~ In k (map fst o) -> lookup k o = None.
Proof.
  induction o as [|[k0 v0] o IH]; cbn; [reflexivity|].
  intros H. destruct (String.eqb_spec k0 k) as [->|_]; [tauto|].
  apply IH. tauto.
Qed.

(** Without an [approvedFlightStipend] property the color is yellow or
    red. *)
Lemma not_green_without_flag o :
  ~ In "approvedFlightStipend" (map fst o) ->
  exists c, dot_color (VObj o) = Normal c /\ c <> "#00ff00".
Proof.
  intros H. unfold Globe.dot_color. cbn [Get].
  rewrite (lookup_absent _ _ H). cbn [JS.bind truthy].
  destruct (lookup "totalTimeHackatimeHours" o) as [h|]; cbn [JS.bind];
    match goal with |- context [if ?b then _ else _] => destruct b end;
    eexists; (split; [reflexivity | discriminate]).
Qed.

(** Serialisation only ever removes keys. *)
Lemma json_keys o : incl (keys (json (VObj o))) (map fst o).
Proof.
  induction o as [|[k e] o IH].
  - cbn. apply incl_refl.
  - cbn [json keys map fst] in *.
    destruct (json e); cbn [map fst];
      first [ apply incl_tl; exact IH
            | apply incl_cons; [now left | apply incl_tl; exact IH] ].
Qed.

Lemma json_object o : exists o', json (VObj o) = VObj o'.
Proof. cbn [json]. eauto. Qed.

Lemma neighbor_keys_no_flag : ~ In "approvedFlightStipend" neighbor_keys.
Proof.
  unfold neighbor_keys. cbn. intros H.
  repeat (destruct H as [H|H]; [discriminate|]). exact H.
Qed.

Lemma neighbor_of_record_plain r :
  exists n, neighbor_of_record r = Normal n /\ plain_record n.
Proof.
  destruct (neighbor_of_record_shape r)
    as (v1 & v2 & v3 & v4 & v5 & v6 & v7 & v8 & v9 & E & _).
  eexists. split; [exact E|].
  match goal with |- plain_record (VObj ?o) => set (obj := o) end.
  assert (K : map fst obj = neighbor_keys) by reflexivity.
  unfold plain_record. cbn [keys]. rewrite K.
  split; [reflexivity|]. split; [apply neighbor_keys_no_flag|]. split.
  - apply not_green_without_flag. rewrite K. apply neighbor_keys_no_flag.
  - pose proof (json_keys obj) as Hk. rewrite K in Hk. split; [exact Hk|].
    destruct (json_object obj) as [o' Eo]. rewrite Eo in *. cbn [keys] in Hk.
    apply not_green_without_flag. intros Hin.
    apply neighbor_keys_no_flag. now apply Hk.
Qed.

Lemma map_records_plain records :
  exists neighbors,
    map_records records = Normal neighbors /\
    List.length neighbors = List.length records /\
    Forall plain_record neighbors.
Proof.
  induction records as [|r l (ns & E & Hlen & Hall)]; cbn.
  - exists []. repeat split. constructor.
  - destruct (neighbor_of_record_plain r) as (n & En & Hn).
    rewrite En. cbn [JS.bind]. rewrite E. cbn [JS.bind].
    exists (n :: ns). repeat split; cbn; [now rewrite Hlen | now constructor].
Qed.

(** C10.  Every neighbor in a 200 response has exactly the eleven keys
    [neighbor_keys], in that order, so no [approvedFlightStipend]; its
    dot is never green, in memory and after serialisation. *)
Theorem handler_records_never_green
        (method : string) (neighborRecords : completion (list record)) :
  status (handler method neighborRecords) = 200 ->
  exists records neighbors,
    method = "GET" /\
    neighborRecords = Normal records /\
    body (handler method neighborRecords) = VObj [("neighbors", VArr neighbors)] /\
    List.length neighbors = List.length records /\
    Forall plain_record neighbors.
Proof.
  unfold Api.handler.
  destruct (String.eqb_spec method "GET") as [->|Hne]; cbn [negb];
    [|cbn; discriminate].
  destruct neighborRecords as [records|e]; cbn [JS.bind]; [|cbn; discriminate].
  destruct (map_records_plain records) as (ns & E & Hlen & Hall).
  rewrite E. cbn [status body]. intros _.
  exists records, ns. repeat split; assumption.
Qed.

End Route.

Lemma handler_records_never_green_witness :
  status (handler no_literal no_object_number "GET" (Normal [a_record])) = 200 /\
  exists records neighbors,
    "GET" = "GET" /\
    Normal [a_record] = Normal records /\
    body (handler no_literal no_object_number "GET" (Normal [a_record]))
    = VObj [("neighbors", VArr neighbors)] /\
    List.length neighbors = List.length records /\
    Forall (plain_record no_literal no_object_number) neighbors.
Proof.
  split; [reflexivity|].
  apply (handler_records_never_green no_literal no_object_number
           "GET" (Normal [a_record])).
  reflexivity.
Defined.

End ApiFacts.

(* ================================================================== *)
(** * The fragment shader                                             *)
(* ================================================================== *)

Module ShaderFacts.
Import Shader.
Local Open Scope R_scope.

(** X1.  The shader paints with three colors only: every pixel comes out
    black, white or pure red, and opaque. *)
Theorem main_tricolor (color : vec4) :
  main color = black \/ main color = white \/ main color = pure_red.
Proof.
  unfold main.
  destruct (gt (red color) 0.7 && lt (green color) 0.3 && lt (blue color) 0.3).
  - right; right; reflexivity.
  - cbv zeta. unfold step.
    destruct (Rlt_dec _ 0.5); [left | right; left]; reflexivity.
Qed.

(** X2.  A grey pixel is never let through as red; it becomes white from the
    value 0.5 on and black below, whatever its alpha. *)
Theorem main_grey (v al : R) :
  main (mk4 v v v al) = if Rlt_dec v 0.5 then black else white.
Proof.
  unfold main, gt, lt. cbn [red green blue].
  assert (E : (if Rgt_dec v 0.7 then true else false)
              && (if Rlt_dec v 0.3 then true else false) = false).
  { destruct (Rgt_dec v 0.7), (Rlt_dec v 0.3); try reflexivity. lra. }
  rewrite E. cbn [andb]. cbv zeta. unfold step.
  replace (v * 0.299 + v * 0.587 + v * 0.114) with v by lra.
  destruct (Rlt_dec v 0.5); reflexivity.
Qed.

End ShaderFacts.

(* ================================================================== *)
(** * The loading text                                                *)
(* ================================================================== *)

Module LoadingFacts.
Import GlobePage Vocabulary.

Lemma loadingStep_after n : Nat.iter n next_loadingStep 0 = n mod 4.
Proof.
  induction n as [|n IH]; [reflexivity|].
  change (Nat.iter (S n) next_loadingStep 0)
    with (next_loadingStep (Nat.iter n next_loadingStep 0)).
  rewrite IH. unfold next_loadingStep.
  rewrite Nat.Div0.add_mod_idemp_l. f_equal. lia.
Qed.

(** X3.  After any number of ticks the loading step is an index of
    [loadingDots]: the text shown has three characters, of which as many
    are dots as the number of ticks modulo 4. *)
Theorem loading_dots_cycle (ticks : nat) :
  exists s,
    shown_dots (Nat.iter ticks next_loadingStep 0) = Some s /\
    String.length s = 3 /\
    count_dots s = ticks mod 4.
Proof.
  rewrite loadingStep_after.
  pose proof (Nat.mod_upper_bound ticks 4 ltac:(lia)) as H.
  destruct (ticks mod 4) as [|[|[|[|k]]]]; try lia;
    eexists; (split; [reflexivity | split; reflexivity]).
Qed.

End LoadingFacts.

(* ================================================================== *)
(** * The projection and the blinking, further                        *)
(* ================================================================== *)

Module ProjectionFacts.
Import Vector3 Globe Pure Geometry NumberFacts StoreFacts GeometryFacts.
Local Open Scope R_scope.

(** X4.  In geographic terms: with the latitude and the longitude in radians,
    [y] is [r sin(lat)], so the north pole is on the positive [y] axis,
    and the point of latitude 0 and longitude 0 is on the positive [x]
    axis, with east towards negative [z]. *)
Theorem latLonToVec3_geographic (lat lon r : R) :
  latLonToVec3 (Num lat) (Num lon) (Num r) =
  real_position (r * cos (lat * PI / 180) * cos (lon * PI / 180))
                (r * sin (lat * PI / 180))
                (- r * cos (lat * PI / 180) * sin (lon * PI / 180)).
Proof.
  rewrite latLonToVec3_real.
  replace ((90 - lat) * (PI / 180)) with (PI / 2 - lat * PI / 180) by field.
  replace ((lon + 180) * (PI / 180)) with (lon * PI / 180 + PI) by field.
  rewrite sin_shift, cos_shift, neg_cos, neg_sin.
  unfold real_position. f_equal; [f_equal|]; f_equal; ring.
Qed.

(** X5.  A longitude and the same longitude plus 360 degrees give the same
    point. *)
Theorem latLonToVec3_longitude_period (lat lon r : R) :
  latLonToVec3 (Num lat) (Num (lon + 360)) (Num r)
  = latLonToVec3 (Num lat) (Num lon) (Num r).
Proof.
  rewrite !latLonToVec3_real.
  replace ((lon + 360 + 180) * (PI / 180))
    with ((lon + 180) * (PI / 180) + PI + PI) by field.
  rewrite !neg_cos, !neg_sin.
  unfold real_position. f_equal; [f_equal|]; f_equal; ring.
Qed.

(** X6.  At a pole the longitude does not matter: latitude 90 is the point
    [(0, r, 0)] and latitude -90 the point [(0, -r, 0)]. *)
Theorem latLonToVec3_poles (lon r : R) :
  latLonToVec3 (Num 90) (Num lon) (Num r) = real_position 0 r 0 /\
  latLonToVec3 (Num (-90)) (Num lon) (Num r) = real_position 0 (- r) 0.
Proof.
  rewrite !latLonToVec3_real.
  replace ((90 - 90) * (PI / 180)) with 0 by field.
  replace ((90 - -90) * (PI / 180)) with PI by field.
  rewrite sin_0, cos_0, sin_PI, cos_PI.
  unfold real_position. split; (f_equal; [f_equal|]; f_equal; ring).
Qed.

(** X7.  The blinking has period [PI / 2] seconds, and at every multiple of
    that period the dots have size 0. *)
Theorem blink_period (t : R) (n : nat) :
  blink_scale (Num (t + PI / 2)) = blink_scale (Num t) /\
  blink_scale (Num (INR n * (PI / 2))) = Num 0.
Proof.
  unfold blink_scale. cbn [nmul lift2 Math.sin Math.abs lift1]. split.
  - replace ((t + PI / 2) * 2) with (t * 2 + PI) by field.
    now rewrite neg_sin, Rabs_Ropp.
  - f_equal. replace (INR n * (PI / 2) * 2) with (IZR (Z.of_nat n) * PI)
      by (rewrite <- INR_IZR_INZ; field).
    rewrite (sin_eq_0_1 (IZR (Z.of_nat n) * PI)); [apply Rabs_R0 | eauto].
Qed.

End ProjectionFacts.

(* ================================================================== *)
(** * The places of a cluster                                         *)
(* ================================================================== *)

Module ClusterFacts.
Import Vector3 Globe Pure Geometry NumberFacts StoreFacts GeometryFacts.
Local Open Scope R_scope.

Lemma dist_real x y z x' y' z' :
  dist (real_position x y z) (real_position x' y' z')
  = Num (sqrt ((x - x') * (x - x') + (y - y') * (y - y') + (z - z') * (z - z'))).
Proof.
  unfold dist, real_position. cbn [nsub lift2].
  change (norm (real_position (x - x') (y - y') (z - z')) = 
          Num (sqrt ((x - x') * (x - x') + (y - y') * (y - y') + (z - z') * (z - z')))).
  apply norm_real.
Qed.

(** X8.  Around a base on the unit sphere every dot of a group of two or more
    is placed at distance at most 0.01 from the base. *)
Theorem offset_within_radius (a b c : R) (index total : nat) :
  a * a + b * b + c * c = 1 -> (2 <= total)%nat ->
  exists d,
    dist (Vector3.run (calculateOffsetPosition (real_position a b c) index total))
         (real_position a b c) = Num d /\
    0 <= d <= 0.01.
Proof.
  intros HS Hn.
  assert (HS0 : 0 < a * a + b * b + c * c) by lra.
  rewrite run_calculateOffsetPosition, offsetPosition_real by assumption. cbv zeta.
  pose proof (base_plus_tangent_positive a b c
                (cos (INR index / INR total * PI * 2) * 0.01) 0
                (sin (INR index / INR total * PI * 2) * 0.01) HS0) as HP.
  pose proof (tangent_orthogonal a b c
                (cos (INR index / INR total * PI * 2) * 0.01) 0
                (sin (INR index / INR total * PI * 2) * 0.01) HS0) as HO.
  cbv zeta in HP, HO. rewrite HS in HP, HO |- *. rewrite sqrt_1 in HP, HO |- *.
  pose proof (sin2_cos2 (INR index / INR total * PI * 2)) as Hsc. unfold Rsqr in Hsc.
  set (ox := cos (INR index / INR total * PI * 2) * 0.01) in *.
  set (oz := sin (INR index / INR total * PI * 2) * 0.01) in *.
  assert (Ho : ox * ox + oz * oz = 0.0001) by (unfold ox, oz; nra).
  set (d0 := ox * (a * (1 / 1)) + 0 * (b * (1 / 1)) + oz * (c * (1 / 1))) in *.
  set (fx := a + (ox - a * (1 / 1) * d0)) in *.
  set (fy := b + (0 - b * (1 / 1) * d0)) in *.
  set (fz := c + (oz - c * (1 / 1) * d0)) in *.
  assert (Hd0 : d0 = ox * a + oz * c) by (unfold d0; field).
  assert (HPle : fx * fx + fy * fy + fz * fz <= 1.0001).
  { assert (E : fx * fx + fy * fy + fz * fz
                = (a * a + b * b + c * c) + (ox * ox + oz * oz)
                  + d0 * d0 * ((a * a + b * b + c * c) - 2)
                  + 2 * d0 * (1 - (a * a + b * b + c * c))
                  + 2 * ((ox * a + oz * c) - d0)).
    { unfold fx, fy, fz, d0. field. }
    rewrite E, HS, Ho, <- Hd0. nra. }
  set (P := fx * fx + fy * fy + fz * fz) in *.
  pose proof (sqrt_lt_R0 _ HP) as Hm.
  pose proof (sqrt_sqrt P (Rlt_le _ _ HP)) as Hmm.
  set (m := sqrt P) in *.
  set (w := 1 / m).
  assert (Hwm : w * m = 1) by (unfold w; field; lra).
  assert (Hm1 : m <= 1.00005) by nra.
  assert (Hw0 : 0 < w) by (unfold w; apply Rdiv_lt_0_compat; lra).
  assert (Hw : 0.99995 <= w) by nra.
  assert (Hw1 : w * w * P = 1).
  { rewrite <- Hmm. replace (w * w * (m * m)) with ((w * m) * (w * m)) by ring.
    rewrite Hwm. ring. }
  rewrite dist_real.
  eexists. split; [reflexivity|].
  assert (HQ : (fx * w - a) * (fx * w - a) + (fy * w - b) * (fy * w - b)
               + (fz * w - c) * (fz * w - c) = 2 - 2 * w).
  { replace ((fx * w - a) * (fx * w - a) + (fy * w - b) * (fy * w - b)
             + (fz * w - c) * (fz * w - c))
      with (w * w * P - 2 * w * (a * fx + b * fy + c * fz) + (a * a + b * b + c * c))
      by (unfold P; ring).
    rewrite Hw1, HO, HS. ring. }
  rewrite HQ. split; [apply sqrt_pos|].
  replace 0.01 with (sqrt (0.01 * 0.01)) by (apply sqrt_square; lra).
  apply sqrt_le_1_alt. lra.
Qed.

(** X9.  Around a base on the unit sphere that is not in the plane [y = 0],
    two different indices of a group never get the same position. *)
Theorem cluster_distinct_off_equator (a b c : R) (total i j : nat) :
  a * a + b * b + c * c = 1 -> b <> 0 ->
  (i < total)%nat -> (j < total)%nat -> i <> j ->
  Vector3.run (calculateOffsetPosition (real_position a b c) i total)
  <> Vector3.run (calculateOffsetPosition (real_position a b c) j total).
Proof.
  intros HS Hb Hi Hj Hij. rewrite !run_calculateOffsetPosition.
  destruct (Nat.lt_total i j) as [H|[H|H]]; [|contradiction|].
  - apply offsetPosition_distinct; [lra | exact Hb | lia].
  - intros E. symmetry in E. revert E.
    apply offsetPosition_distinct; [lra | exact Hb | lia].
Qed.

Lemma offset_within_radius_witness :
  (0 * 0 + 1 * 1 + 0 * 0 = 1 /\ (2 <= 2)%nat) /\
  exists d,
    dist (Vector3.run (calculateOffsetPosition (real_position 0 1 0) 0 2))
         (real_position 0 1 0) = Num d /\
    0 <= d <= 0.01.
Proof.
  split; [split; [lra | lia]|].
  apply (offset_within_radius 0 1 0 0 2); [lra | lia].
Defined.

Lemma cluster_distinct_off_equator_witness :
  (0 * 0 + 1 * 1 + 0 * 0 = 1 /\ 1 <> 0 /\ (0 < 2)%nat /\ (1 < 2)%nat /\ 0%nat <> 1%nat) /\
  Vector3.run (calculateOffsetPosition (real_position 0 1 0) 0 2)
  <> Vector3.run (calculateOffsetPosition (real_position 0 1 0) 1 2).
Proof.
  split; [repeat split; (lra || lia)|].
  apply (cluster_distinct_off_equator 0 1 0 2 0 1); (lra || lia).
Defined.

End ClusterFacts.

(* ================================================================== *)
(** * From neighbors to dots                                          *)
(* ================================================================== *)

Module DotsFacts.
Import Globe Persons Vocabulary PropsFacts GroupFacts MarkerFacts NumberFacts.

Lemma list_sum_cons a l : list_sum (a :: l) = (a + list_sum l)%nat.
Proof. reflexivity. Qed.

Lemma map_from_shape {A B} (f : A -> nat -> completion B) l :
  forall i ds,
    map_from i f l = Normal ds ->
    List.length ds = List.length l /\
    forall j a, nth_error l j = Some a ->
                exists d, nth_error ds j = Some d /\ f a (i + j) = Normal d.
Proof.
  induction l as [|a l IH]; cbn; intros i ds.
  - intros [= <-]. split; [reflexivity|]. intros [|j] x; discriminate.
  - destruct (f a i) as [b|] eqn:Ef; cbn; [|discriminate].
    destruct (map_from (S i) f l) as [bs|] eqn:Em; cbn; [|discriminate].
    intros [= <-]. destruct (IH _ _ Em) as [Hlen Hnth].
    split; [cbn; now rewrite Hlen|].
    intros [|j] x Hx; cbn in *.
    + injection Hx as <-. exists b. rewrite Nat.add_0_r. now split.
    + destruct (Hnth j x Hx) as (d & Hd & Hf). exists d. split; [exact Hd|].
      now rewrite Nat.add_succ_r.
Qed.

Section Dots.
Variable upcase : string -> string.
Variable StringToNumber : string -> number.
Variable ObjectToNumber : value -> number.

#[local] Abbreviation dot_color := (dot_color StringToNumber ObjectToNumber).
#[local] Abbreviation group_dots := (group_dots upcase StringToNumber ObjectToNumber).
#[local] Abbreviation AirportDots := (AirportDots upcase StringToNumber ObjectToNumber).
#[local] Abbreviation has_code := (has_code upcase).
#[local] Abbreviation airport_code := (airport_code upcase).
#[local] Abbreviation grouped := (grouped upcase).
#[local] Abbreviation airportGroups := (airportGroups upcase).
#[local] Abbreviation find_airport := (find_airport upcase).
#[local] Abbreviation blinking_dot := (blinking_dot StringToNumber ObjectToNumber).
#[local] Abbreviation dot_of := (dot_of StringToNumber ObjectToNumber).
#[local] Abbreviation Number := (ToNumber StringToNumber ObjectToNumber).

Lemma blinking_dot_of base total n i d :
  blinking_dot base total n i = Normal d ->
  dot_of n d /\ pos d = Vector3.run (calculateOffsetPosition base i total).
Proof.
  unfold Globe.blinking_dot.
  destruct (Get n "slackId") as [k|] eqn:Ek; cbn [JS.bind]; [|discriminate].
  destruct (Globe.dot_color StringToNumber ObjectToNumber n) as [c|] eqn:Ec;
    cbn [JS.bind]; [|discriminate].
  intros [= <-]. unfold Vocabulary.dot_of. cbn. rewrite Ec. auto.
Qed.

Lemma blinking_dots_inversion base members ds :
  array_map (blinking_dot base (List.length members)) members = Normal ds ->
  List.length ds = List.length members /\
  forall j neighbor,
    nth_error members j = Some neighbor ->
    exists d,
      nth_error ds j = Some d /\
      dot_of neighbor d /\
      pos d = Vector3.run (calculateOffsetPosition base j (List.length members)).
Proof.
  unfold array_map. intros Em.
  destruct (map_from_shape _ _ _ _ Em) as [Hlen Hnth].
  split; [exact Hlen|].
  intros j n Hn. destruct (Hnth j n Hn) as (d & Hd & Hf). exists d.
  split; [exact Hd|]. cbn [Nat.add] in Hf. now apply blinking_dot_of in Hf.
Qed.

Lemma group_dots_some airportsData code members ds :
  group_dots airportsData (code, members) = Normal (Some ds) ->
  exists airport lat lon,
    find_airport airportsData code = Normal airport /\
    Get airport "lat" = Normal lat /\ truthy lat = true /\
    Get airport "lon" = Normal lon /\ truthy lon = true /\
    array_map (blinking_dot (latLonToVec3 (Number lat) (Number lon) default_radius)
                            (List.length members)) members = Normal ds.
Proof.
  unfold Globe.group_dots.
  destruct (find_airport airportsData code) as [airport|] eqn:Ef;
    cbn [JS.bind]; [|discriminate].
  destruct (truthy airport); cbn [negb]; [|discriminate].
  destruct (Get airport "lat") as [lat|] eqn:Elat; cbn [JS.bind]; [|discriminate].
  destruct (truthy lat) eqn:Tlat; cbn [negb]; [|discriminate].
  destruct (Get airport "lon") as [lon|] eqn:Elon; cbn [JS.bind]; [|discriminate].
  destruct (truthy lon) eqn:Tlon; cbn [negb]; [|discriminate].
  match goal with |- context [array_map ?f members] =>
    destruct (array_map f members) as [ds'|] eqn:Em end;
    cbn [JS.bind]; [|discriminate].
  intros [= <-]. exists airport, lat, lon. repeat (split; [assumption || reflexivity|]).
  exact Em.
Qed.

(** X10.  The dots of one group: the airport found has a truthy latitude and
    longitude, there is one dot per member, and the dot at index [j] is
    the one of the member at index [j], placed by
    [calculateOffsetPosition] at index [j] of the size of the group. *)
Theorem group_dots_shape (airportsData : value) (code : string)
        (members : list value) (ds : list BlinkingDot) :
  group_dots airportsData (code, members) = Normal (Some ds) ->
  exists airport lat lon,
    find_airport airportsData code = Normal airport /\
    Get airport "lat" = Normal lat /\ truthy lat = true /\
    Get airport "lon" = Normal lon /\ truthy lon = true /\
    List.length ds = List.length members /\
    forall j neighbor,
      nth_error members j = Some neighbor ->
      exists d,
        nth_error ds j = Some d /\
        dot_of neighbor d /\
        pos d = Vector3.run
                  (calculateOffsetPosition
                     (latLonToVec3 (Number lat) (Number lon) default_radius)
                     j (List.length members)).
Proof.
  intros H.
  destruct (group_dots_some _ _ _ _ H)
    as (airport & lat & lon & Hf & Hlat & Tlat & Hlon & Tlon & Em).
  destruct (blinking_dots_inversion _ _ _ Em) as [Hlen Hnth].
  exists airport, lat, lon. repeat (split; [assumption|]). exact Hnth.
Qed.

(** *** From the groups to the dots *)

Lemma group_dots_members airportsData code members ds :
  group_dots airportsData (code, members) = Normal (Some ds) ->
  List.length ds = List.length members /\
  Forall (fun d => In (onClick d) members /\ dot_of (onClick d) d) ds.
Proof.
  intros H. destruct (group_dots_some _ _ _ _ H)
    as (airport & lat & lon & _ & _ & _ & _ & _ & Em).
  destruct (blinking_dots_inversion _ _ _ Em) as [Hlen Hnth].
  split; [exact Hlen|]. apply Forall_forall. intros d Hd.
  apply In_nth_error in Hd as [j Hj].
  assert (Hjl : (j < List.length members)%nat).
  { rewrite <- Hlen. apply nth_error_Some. congruence. }
  destruct (nth_error members j) as [n|] eqn:En;
    [|apply nth_error_None in En; lia].
  destruct (Hnth j n En) as (d' & Hd' & Hof & _).
  assert (d' = d) by congruence. subst d'.
  destruct Hof as (Hc & Hrest). rewrite Hc.
  split; [eapply nth_error_In; eassumption|].
  unfold Vocabulary.dot_of. rewrite Hc in *. tauto.
Qed.

Lemma per_group_dots airportsData (gs : Groups) : forall i per_group,
  map_from i (fun entry (_ : nat) => group_dots airportsData entry) gs = Normal per_group ->
  (List.length (filter_Boolean (flat per_group)) <= members_count gs)%nat /\
  Forall (fun d => exists code members,
              In (code, members) gs /\ In (onClick d) members /\ dot_of (onClick d) d)
         (filter_Boolean (flat per_group)).
Proof.
  induction gs as [|[code members] gs IH]; cbn [map_from]; intros i per_group.
  - intros [= <-]. cbn. split; [lia | constructor].
  - destruct (group_dots airportsData (code, members)) as [r|] eqn:Eg;
      cbn [JS.bind]; [|discriminate].
    destruct (map_from (S i) _ gs) as [rest|] eqn:Em; cbn [JS.bind]; [|discriminate].
    intros [= <-]. destruct (IH _ _ Em) as [Hlen Hall].
    assert (Hall' : Forall (fun d => exists code0 members0,
                In (code0, members0) ((code, members) :: gs) /\
                In (onClick d) members0 /\ dot_of (onClick d) d)
              (filter_Boolean (flat rest))).
    { eapply Forall_impl; [|exact Hall]. intros d (c & m & Hin & H1 & H2).
      exists c, m. split; [now right | now split]. }
    unfold members_count in *. cbn [map snd]; rewrite list_sum_cons.
    destruct r as [ds|]; cbn [flat filter_Boolean].
    + destruct (group_dots_members _ _ _ _ Eg) as [Hl Hf].
      assert (E : filter_Boolean (map Some ds ++ flat rest)
                  = ds ++ filter_Boolean (flat rest)).
      { clear. induction ds as [|d ds IHd]; cbn; [reflexivity | now rewrite IHd]. }
      rewrite E. split.
      * rewrite length_app. lia.
      * apply Forall_app. split; [|exact Hall'].
        eapply Forall_impl; [|exact Hf]. intros d [H1 H2].
        exists code, members. split; [now left | now split].
    + split; [lia | exact Hall'].
Qed.

(** Each code has at most one group, so the groups hold no more members
    than there are neighbors. *)
Lemma one_code_per_neighbor n codes :
  NoDup codes ->
  (list_sum (map (fun c => if has_code c n then 1 else 0) codes) <= 1)%nat.
Proof.
  induction codes as [|c codes IH]; [cbn; lia|]. cbn [map]. rewrite list_sum_cons.
  intros Hnd. inversion Hnd as [|? ? Hnot Hnd']; subst.
  specialize (IH Hnd').
  destruct (has_code c n) eqn:Hc; [|lia].
  assert (Hz : list_sum (map (fun c0 => if has_code c0 n then 1 else 0) codes) = 0%nat).
  { clear IH Hnd Hnd'. induction codes as [|c' codes IH']; [reflexivity|].
    cbn [map]. rewrite list_sum_cons. destruct (has_code c' n) eqn:Hc'.
    - exfalso. apply Hnot. left.
      unfold Persons.has_code in *. destruct (airport_code n); [|discriminate].
      apply String.eqb_eq in Hc, Hc'. congruence.
    - apply IH'. intros Hin. apply Hnot. now right. }
  lia.
Qed.

Lemma filters_count codes (l : list value) :
  NoDup codes ->
  (list_sum (map (fun c => List.length (filter (has_code c) l)) codes)
   <= List.length l)%nat.
Proof.
  intros Hnd. induction l as [|n l IH].
  - cbn. induction codes; cbn; [lia|]. inversion Hnd; subst; auto.
  - assert (E : list_sum (map (fun c => List.length (filter (has_code c) (n :: l))) codes)
                = (list_sum (map (fun c => if has_code c n then 1 else 0) codes)
                   + list_sum (map (fun c => List.length (filter (has_code c) l)) codes))%nat).
    { clear. induction codes as [|c codes IHc]; [reflexivity|].
      cbn [map]. rewrite !list_sum_cons, IHc. cbn [filter].
      destruct (has_code c n); cbn [List.length]; lia. }
    rewrite E. pose proof (one_code_per_neighbor n codes Hnd). cbn [List.length]. lia.
Qed.

Lemma members_count_le neighbors gs :
  grouped neighbors gs -> (members_count gs <= List.length neighbors)%nat.
Proof.
  intros Hg. pose proof Hg as [Hnd _].
  unfold members_count.
  rewrite (map_ext_in _ (fun entry => List.length (filter (has_code (fst entry)) neighbors))).
  - rewrite <- (map_map fst (fun c => List.length (filter (has_code c) neighbors))).
    now apply filters_count.
  - intros [code members] Hin. cbn [fst snd].
    apply (grouped_In upcase neighbors gs code members Hg) in Hin as [-> _]. reflexivity.
Qed.

Lemma AirportDots_groups neighbors airportsData ds :
  AirportDots neighbors airportsData = Normal ds ->
  exists gs,
    grouped neighbors gs /\
    (List.length ds <= members_count gs)%nat /\
    Forall (fun d => exists code members,
                In (code, members) gs /\ In (onClick d) members /\ dot_of (onClick d) d)
           ds.
Proof.
  unfold Globe.AirportDots.
  destruct (airportGroups neighbors) as [gs|] eqn:Eg; cbn [JS.bind]; [|discriminate].
  unfold array_map.
  destruct (map_from 0 _ gs) as [per_group|] eqn:Em; cbn [JS.bind]; [|discriminate].
  intros [= <-]. exists gs. split; [now apply airportGroups_grouped|].
  exact (per_group_dots _ _ _ _ Em).
Qed.

Lemma AirportDots_origin neighbors airportsData ds :
  AirportDots neighbors airportsData = Normal ds ->
  Forall (fun d => In (onClick d) neighbors /\
                   airport_code (onClick d) <> None /\
                   dot_of (onClick d) d) ds.
Proof.
  intros H. destruct (AirportDots_groups _ _ _ H) as (gs & Hg & _ & Hall).
  eapply Forall_impl; [|exact Hall]. intros d (code & members & Hin & Hm & Hof).
  apply (grouped_In upcase neighbors gs code members Hg) in Hin as [-> _].
  apply filter_In in Hm as [Hn Hc]. split; [exact Hn|]. split; [|exact Hof].
  unfold Persons.has_code in Hc. destruct (airport_code (onClick d)); discriminate.
Qed.

(** X11.  Every dot is the dot of a neighbor of the input whose airport code is
    a non-empty string, it is interactive, its key is the [slackId] and
    its color the classification of that neighbor; and there are never
    more dots than neighbors. *)
Theorem AirportDots_sound (neighbors : list value) (airportsData : value)
        (ds : list BlinkingDot) :
  AirportDots neighbors airportsData = Normal ds ->
  (List.length ds <= List.length neighbors)%nat /\
  Forall (fun d => In (onClick d) neighbors /\
                   airport_code (onClick d) <> None /\
                   dot_of (onClick d) d) ds.
Proof.
  intros H. split; [|now apply AirportDots_origin in H].
  destruct (AirportDots_groups _ _ _ H) as (gs & Hg & Hlen & _).
  pose proof (members_count_le _ _ Hg). lia.
Qed.

End Dots.

Lemma group_dots_shape_witness :
  group_dots upper no_literal no_object_number only_text_sfo ("SFO", [p_sfo; p_SFO])
  = Normal (Some [text_sfo_dot p_sfo 0; text_sfo_dot p_SFO 1]) /\
  exists airport lat lon,
    find_airport upper only_text_sfo "SFO" = Normal airport /\
    Get airport "lat" = Normal lat /\ truthy lat = true /\
    Get airport "lon" = Normal lon /\ truthy lon = true /\
    List.length [text_sfo_dot p_sfo 0; text_sfo_dot p_SFO 1]
    = List.length [p_sfo; p_SFO] /\
    forall j neighbor,
      nth_error [p_sfo; p_SFO] j = Some neighbor ->
      exists d,
        nth_error [text_sfo_dot p_sfo 0; text_sfo_dot p_SFO 1] j = Some d /\
        dot_of no_literal no_object_number neighbor d /\
        pos d = Vector3.run
                  (calculateOffsetPosition
                     (latLonToVec3 (ToNumber no_literal no_object_number lat)
                                   (ToNumber no_literal no_object_number lon)
                                   default_radius)
                     j (List.length [p_sfo; p_SFO])).
Proof.
  split; [reflexivity|].
  apply (group_dots_shape upper no_literal no_object_number only_text_sfo "SFO"
           [p_sfo; p_SFO] [text_sfo_dot p_sfo 0; text_sfo_dot p_SFO 1]).
  reflexivity.
Defined.

Lemma AirportDots_sound_witness :
  AirportDots upper no_literal no_object_number [p_sfo; p_SFO; p_null; p_xyz]
              only_text_sfo
  = Normal [text_sfo_dot p_sfo 0; text_sfo_dot p_SFO 1] /\
  (List.length [text_sfo_dot p_sfo 0; text_sfo_dot p_SFO 1]
   <= List.length [p_sfo; p_SFO; p_null; p_xyz])%nat /\
  Forall (fun d => In (onClick d) [p_sfo; p_SFO; p_null; p_xyz] /\
                   airport_code upper (onClick d) <> None /\
                   dot_of no_literal no_object_number (onClick d) d)
         [text_sfo_dot p_sfo 0; text_sfo_dot p_SFO 1].
Proof.
  split; [reflexivity|].
  apply (AirportDots_sound upper no_literal no_object_number
           [p_sfo; p_SFO; p_null; p_xyz] only_text_sfo).
  reflexivity.
Defined.

End DotsFacts.

(* ================================================================== *)
(** * The answers of the route                                        *)
(* ================================================================== *)

Module RouteFacts.
Import Globe Persons Api Vocabulary NumberFacts ApiFacts.

Lemma opt_Get_opt_get v k : opt_Get v k = Normal (opt_get v k).
Proof.
  unfold opt_get. destruct (opt_Get_total v k) as [w ->]. reflexivity.
Qed.

Lemma Get_field r k : Get (VObj (fields r)) k = Normal (field r k).
Proof. unfold field. cbn [Get]. now destruct (lookup k (fields r)). Qed.

Section Route.
Variable StringToNumber : string -> number.
Variable ObjectToNumber : value -> number.

#[local] Abbreviation neighbor_of_record := (neighbor_of_record StringToNumber ObjectToNumber).
#[local] Abbreviation map_records := (map_records StringToNumber ObjectToNumber).
#[local] Abbreviation handler := (handler StringToNumber ObjectToNumber).
#[local] Abbreviation dot_color := (dot_color StringToNumber ObjectToNumber).
#[local] Abbreviation record_object := (record_object StringToNumber ObjectToNumber).
#[local] Abbreviation wire_record := (wire_record StringToNumber ObjectToNumber).
#[local] Abbreviation Number := (ToNumber StringToNumber ObjectToNumber).

(** Building a neighbor never throws. *)
Lemma neighbor_of_record_object r :
  neighbor_of_record r = Normal (record_object r).
Proof.
  unfold Api.neighbor_of_record, Vocabulary.record_object.
  rewrite !Get_field. cbn [JS.bind].
  rewrite opt_Get_opt_get. cbn [JS.bind].
  rewrite opt_Get_opt_get. cbn [JS.bind]. reflexivity.
Qed.

Lemma map_records_objects records :
  map_records records = Normal (map record_object records).
Proof.
  induction records as [|r l IH]; cbn [Api.map_records map]; [reflexivity|].
  now rewrite neighbor_of_record_object, IH.
Qed.

(** X12.  Any method but GET is refused with 405 whatever the query gives; a
    GET fails with 500 only when the query itself fails, and otherwise
    answers 200 with one neighbor per row, in the order of the rows. *)
Theorem handler_response (method : string) (neighborRecords : completion (list record)) :
  handler method neighborRecords =
  if negb (String.eqb method "GET")
  then {| status := 405; body := VObj [("message", VStr "Method not allowed")] |}
  else
    match neighborRecords with
    | Normal records =>
        {| status := 200;
           body := VObj [("neighbors", VArr (map record_object records))] |}
    | Throw _ =>
        {| status := 500; body := VObj [("message", VStr "Error fetching neighbors")] |}
    end.
Proof.
  unfold Api.handler. destruct (negb (method =? "GET")); [reflexivity|].
  destruct neighborRecords as [records|e]; cbn [JS.bind]; [|reflexivity].
  now rewrite map_records_objects.
Qed.

(** *** Rounding of the hours *)

Lemma round_ge_100 h :
  nge (Math.round (Num h)) (Num 100) = if Rle_dec 99.5 h then true else false.
Proof.
  unfold Math.round.
  destruct (base_Int_part (h + / 2)) as [Hlo Hhi].
  set (z := Int_part (h + / 2)) in *.
  destruct (Rle_dec 99.5 h) as [Hh|Hh].
  - apply nge_Num. 
    assert (Hz : (99 < z)%Z).
    { apply lt_IZR. lra. }
    assert (Hz' : (100 <= z)%Z) by lia. apply IZR_le in Hz'. lra.
  - apply nge_Num_lt.
    assert (Hz : (z < 100)%Z).
    { apply lt_IZR. lra. }
    assert (Hz' : (z <= 99)%Z) by lia. apply IZR_le in Hz'. lra.
Qed.

Lemma or_else_number h :
  Number (or_else (VNum (Num h)) (VNum (Num 0))) = Num h.
Proof.
  unfold or_else. cbn [truthy].
  destruct (Req_dec_T h 0) as [->|_]; reflexivity.
Qed.

(** X13.  A row whose logged hours are the number [h] gives a yellow dot from
    99.5 hours on and a red one below: the route rounds the hours to the
    nearest integer before the globe compares them with 100. *)
Theorem rounded_hours_threshold (r : record) (h : R) :
  field r "totalTimeHackatimeHours" = VNum (Num h) ->
  exists neighbor,
    neighbor_of_record r = Normal neighbor /\
    Get neighbor "totalTimeHackatimeHours"
      = Normal (VNum (Num (IZR (Int_part (h + / 2))))) /\
    dot_color neighbor = Normal (if Rle_dec 99.5 h then "#ffff00" else "red").
Proof.
  intros Hf. exists (record_object r). split; [apply neighbor_of_record_object|].
  unfold Vocabulary.record_object. rewrite Hf, or_else_number. split; [reflexivity|].
  unfold Globe.dot_color. cbn [Get lookup String.eqb Ascii.eqb Bool.eqb JS.bind truthy].
  unfold ge_num. cbn [ToNumber]. rewrite round_ge_100.
  destruct (Rle_dec 99.5 h); reflexivity.
Qed.

(** *** The logged hours *)

Lemma Int_part_half : Int_part (0 + / 2) = 0%Z.
Proof.
  destruct (base_Int_part (0 + / 2)) as [Hlo Hhi].
  set (z := Int_part (0 + / 2)) in *.
  assert (H1 : (z < 1)%Z) by (apply lt_IZR; lra).
  assert (H2 : (-1 < z)%Z) by (apply lt_IZR; lra).
  lia.
Qed.

Lemma round_zero : Math.round (Num 0) = Num 0.
Proof. unfold Math.round. now rewrite Int_part_half. Qed.




(** X15.  The picture is the [url] of the first attachment when that is
    truthy. *)
Theorem neighbor_pfp (r : record) (attachment : object) (others : list value) (url : value) :
  field r "Pfp (from slackNeighbor)" = VArr (VObj attachment :: others) ->
  lookup "url" attachment = Some url ->
  truthy url = true ->
  exists neighbor,
    neighbor_of_record r = Normal neighbor /\ Get neighbor "pfp" = Normal url.
Proof.
  intros Hf Hu Ht. exists (record_object r). split; [apply neighbor_of_record_object|].
  unfold Vocabulary.record_object. rewrite Hf.
  cbn [Get lookup String.eqb Ascii.eqb Bool.eqb].
  unfold opt_get, opt_Get. cbn [nullish Get array_index parse_digits nth N.to_nat].
  cbn. rewrite Hu. unfold or_else. now rewrite Ht.
Qed.

(** X16.  Without a picture field, or with an empty one, the picture is
    [null]. *)
Theorem neighbor_no_pfp (r : record) :
  field r "Pfp (from slackNeighbor)" = VUndefined \/
  field r "Pfp (from slackNeighbor)" = VArr [] ->
  exists neighbor,
    neighbor_of_record r = Normal neighbor /\ Get neighbor "pfp" = Normal VNull.
Proof.
  intros Hf. exists (record_object r). split; [apply neighbor_of_record_object|].
  unfold Vocabulary.record_object. destruct Hf as [-> | ->]; reflexivity.
Qed.

End Route.

Local Open Scope R_scope.

Lemma rounded_hours_threshold_witness :
  field pictured_record "totalTimeHackatimeHours" = VNum (Num 99.5) /\
  exists neighbor,
    neighbor_of_record no_literal no_object_number pictured_record = Normal neighbor /\
    Get neighbor "totalTimeHackatimeHours"
      = Normal (VNum (Num (IZR (Int_part (99.5 + / 2))))) /\
    dot_color no_literal no_object_number neighbor
      = Normal (if Rle_dec 99.5 99.5 then "#ffff00" else "red").
Proof.
  split; [reflexivity|].
  apply (rounded_hours_threshold no_literal no_object_number pictured_record 99.5).
  reflexivity.
Defined.

Lemma neighbor_pfp_witness :
  (field pictured_record "Pfp (from slackNeighbor)"
   = VArr [VObj [("url", VStr "https://example.org/p.png")]] /\
   lookup "url" [("url", VStr "https://example.org/p.png")]
   = Some (VStr "https://example.org/p.png") /\
   truthy (VStr "https://example.org/p.png") = true) /\
  exists neighbor,
    neighbor_of_record no_literal no_object_number pictured_record = Normal neighbor /\
    Get neighbor "pfp" = Normal (VStr "https://example.org/p.png").
Proof.
  split; [repeat split; reflexivity|].
  apply (neighbor_pfp no_literal no_object_number pictured_record
           [("url", VStr "https://example.org/p.png")] []
           (VStr "https://example.org/p.png")); reflexivity.
Defined.

(** Text that spells no number does give [NaN]. *)
Example hours_not_a_number :
  Get (record_object no_literal no_object_number
         {| id := "rec4"; fields := [("totalTimeHackatimeHours", VStr "abc")] |})
      "totalTimeHackatimeHours"
  = Normal (VNum NaN).
Proof. reflexivity. Qed.

Lemma neighbor_no_pfp_witness :
  (field bare_record "Pfp (from slackNeighbor)" = VUndefined \/
   field bare_record "Pfp (from slackNeighbor)" = VArr []) /\
  exists neighbor,
    neighbor_of_record no_literal no_object_number bare_record = Normal neighbor /\
    Get neighbor "pfp" = Normal VNull.
Proof.
  split; [left; reflexivity|].
  apply (neighbor_no_pfp no_literal no_object_number bare_record).
  left. reflexivity.
Defined.

End RouteFacts.

(* ================================================================== *)
(** * The pages on the answers of the route                           *)
(* ================================================================== *)

Module WireFacts.
Import Globe Persons Api Vocabulary NumberFacts PropsFacts ApiFacts RouteFacts DotsFacts.

Lemma json_undefined v : json v = VUndefined -> v = VUndefined.
Proof.
  destruct v as [| | |n| | |]; cbn [json]; try discriminate; [reflexivity|].
  destruct n; discriminate.
Qed.

(** Serialisation keeps truthiness. *)
Lemma truthy_json v : truthy (json v) = truthy v.
Proof.
  destruct v as [| | |n| | |]; cbn [json truthy]; try reflexivity.
  destruct n; reflexivity.
Qed.

Lemma json_VObj o : json (VObj o) = VObj (json_props o).
Proof. reflexivity. Qed.

Lemma json_props_cons k e o :
  json_props ((k, e) :: o)
  = match json e with
    | VUndefined => json_props o
    | w => (k, w) :: json_props o
    end.
Proof. unfold json_props. cbn [json]. destruct (json e); reflexivity. Qed.

Lemma json_props_keys o k : In k (map fst (json_props o)) -> In k (map fst o).
Proof.
  induction o as [|[k0 e] o IH]; [intros []|].
  rewrite json_props_cons. cbn [map fst].
  destruct (json e); cbn [map fst In]; tauto.
Qed.

Lemma lookup_json_props o k :
  NoDup (map fst o) ->
  lookup k (json_props o)
  = match lookup k o with
    | Some e => match json e with VUndefined => None | w => Some w end
    | None => None
    end.
Proof.
  induction o as [|[k0 e] o IH]; intros Hnd; [reflexivity|].
  inversion Hnd as [|? ? Hnot Hnd']; subst. specialize (IH Hnd').
  rewrite json_props_cons. cbn [lookup].
  destruct (String.eqb_spec k0 k) as [->|Hne].
  - assert (Habs : lookup k (json_props o) = None).
    { destruct (lookup k (json_props o)) as [w|] eqn:El; [|reflexivity].
      exfalso. apply Hnot. apply json_props_keys.
      apply lookup_In in El. now apply (in_map fst) in El. }
    destruct (json e); cbn [lookup]; rewrite ?String.eqb_refl; try reflexivity.
    exact Habs.
  - destruct (json e); cbn [lookup];
      try (destruct (String.eqb_spec k0 k); [contradiction|]); exact IH.
Qed.

(** Reading a property of an object after serialisation gives the
    serialised property. *)
Lemma Get_json o k :
  NoDup (map fst o) ->
  Get (json (VObj o)) k
  = Normal (json (match lookup k o with Some e => e | None => VUndefined end)).
Proof.
  intros Hnd. rewrite json_VObj. cbn [Get]. rewrite lookup_json_props by exact Hnd.
  destruct (lookup k o) as [e|]; [|reflexivity].
  destruct (json e); reflexivity.
Qed.

Lemma json_array_of_objects (l : list value) :
  Forall (fun v => exists o, v = VObj o) l ->
  json (VArr l) = VArr (map json l).
Proof.
  intros H. cbn [json]. f_equal. apply map_ext_in. intros v Hv.
  rewrite Forall_forall in H. destruct (H v Hv) as [o ->]. reflexivity.
Qed.

Section Wire.
Variable upcase : string -> string.
Variable StringToNumber : string -> number.
Variable ObjectToNumber : value -> number.

#[local] Abbreviation handler := (handler StringToNumber ObjectToNumber).
#[local] Abbreviation dot_color := (dot_color StringToNumber ObjectToNumber).
#[local] Abbreviation record_object := (record_object StringToNumber ObjectToNumber).
#[local] Abbreviation wire_record := (wire_record StringToNumber ObjectToNumber).
#[local] Abbreviation airport_dots :=
  (GlobePage.airport_dots upcase StringToNumber ObjectToNumber).
#[local] Abbreviation dot_of := (dot_of StringToNumber ObjectToNumber).

Lemma record_object_keys r : map fst (match record_object r with VObj o => o | _ => [] end) = neighbor_keys.
Proof. reflexivity. Qed.

Lemma record_object_NoDup r o : record_object r = VObj o -> NoDup (map fst o).
Proof.
  intros E. pose proof (record_object_keys r) as K. rewrite E in K. rewrite K.
  unfold neighbor_keys.
  repeat (constructor; [cbn; intros H;
                        repeat (destruct H as [H|H]; [discriminate|]); exact H|]).
  constructor.
Qed.

(** What the pages receive for a 200 response: the serialised neighbors,
    one per row. *)
Lemma json_neighbors records :
  json (VObj [("neighbors", VArr (map record_object records))])
  = VObj [("neighbors", VArr (map wire_record records))].
Proof.
  rewrite json_VObj, json_props_cons, json_array_of_objects.
  - rewrite map_map. unfold Vocabulary.wire_record.
    change (json_props []) with (@nil (string * value)). reflexivity.
  - apply Forall_forall. intros v Hv. apply in_map_iff in Hv as (r & <- & _).
    unfold Vocabulary.record_object. eauto.
Qed.

Lemma wire_record_not_green r :
  exists c, dot_color (wire_record r) = Normal c /\ c <> "#00ff00".
Proof.
  destruct (neighbor_of_record_plain StringToNumber ObjectToNumber r) as (n & En & Hp).
  rewrite neighbor_of_record_object in En. injection En as <-.
  destruct Hp as (_ & _ & _ & _ & H). exact H.
Qed.

(** X17.  Globe page, end to end: whatever the route answers, the page draws
    no green dot; every dot is the dot of a row that the query returned,
    as the page received it; and when the route does not answer 200 the
    globe has no dot at all. *)
Theorem globe_of_route (method : string) (neighborRecords : completion (list record))
        (airportsData : value) (ds : list BlinkingDot) :
  airport_dots
    (GlobePage.neighbors_after_fetch (Normal (json (body (handler method neighborRecords)))))
    airportsData = Normal ds ->
  Forall (fun d => color d <> "#00ff00" /\
                   exists records r,
                     neighborRecords = Normal records /\ In r records /\
                     onClick d = wire_record r /\
                     dot_of (wire_record r) d) ds /\
  (if Nat.eqb (status (handler method neighborRecords)) 200 then True else ds = []).
Proof.
  unfold Api.handler.
  destruct (negb (method =? "GET")).
  { cbn [body status]. intros H.
    assert (E : Normal ds = Normal (@nil BlinkingDot)) by (rewrite <- H; reflexivity).
    injection E as ->. split; [constructor | reflexivity]. }
  destruct neighborRecords as [records|e].
  2:{ cbn [JS.bind body status]. intros H.
      assert (E : Normal ds = Normal (@nil BlinkingDot)) by (rewrite <- H; reflexivity).
      injection E as ->. split; [constructor | reflexivity]. }
  cbn [JS.bind]. rewrite map_records_objects.
  cbn [body status]. rewrite json_neighbors.
  unfold GlobePage.neighbors_after_fetch.
  cbn [JS.bind Get lookup String.eqb Ascii.eqb Bool.eqb or_else truthy].
  unfold GlobePage.airport_dots. intros H.
  apply AirportDots_origin in H. rename H into Hall. split; [|reflexivity].
  eapply Forall_impl; [|exact Hall]. intros d (Hin & _ & Hof).
  apply in_map_iff in Hin as (r & Hr & Hin). split.
  - destruct Hof as (_ & _ & _ & Hc). rewrite <- Hr in Hc.
    destruct (wire_record_not_green r) as (c & Ec & Hne).
    rewrite Ec in Hc. injection Hc as <-. exact Hne.
  - exists records, r. rewrite <- Hr in Hof. auto.
Qed.

(** *** The list page *)

Lemma array_filter_objects (l : list value) :
  Forall (fun v => exists o, v = VObj o) l ->
  Neighborhood.array_filter Neighborhood.has_name l = Normal (filter named l).
Proof.
  induction l as [|v l IH]; intros H; [reflexivity|].
  inversion H as [|? ? [o ->] Hl]; subst. specialize (IH Hl).
  cbn [Neighborhood.array_filter filter]. unfold named.
  assert (E : exists b, Neighborhood.has_name (VObj o) = Normal b).
  { unfold Neighborhood.has_name. cbn [Get].
    destruct (lookup "fullName" o); cbn [JS.bind];
      match goal with |- context [if truthy ?v then _ else _] => destruct (truthy v) end;
      eauto; destruct (lookup "slackFullName" o); cbn [JS.bind]; eauto. }
  destruct E as [b ->]. cbn [JS.bind]. rewrite IH. reflexivity.
Qed.

(** X18.  List page, end to end: after the fetch the page no longer loads; it
    shows the error exactly when the route did not answer 200, and
    otherwise lists the rows that have a name, in the order of the
    answer. *)
Theorem list_of_route (method : string) (neighborRecords : completion (list record)) :
  Neighborhood.fetchNeighbors (Normal (json (body (handler method neighborRecords))))
                              Neighborhood.initial
  = if negb (String.eqb method "GET") then failed
    else match neighborRecords with
         | Normal records =>
             {| Neighborhood.neighbors := filter named (map wire_record records);
                Neighborhood.loading := false;
                Neighborhood.error := VNull |}
         | Throw _ => failed
         end.
Proof.
  unfold Api.handler.
  destruct (negb (method =? "GET")); [reflexivity|].
  destruct neighborRecords as [records|e]; [|reflexivity].
  cbn [JS.bind]. rewrite map_records_objects.
  cbn [body]. rewrite json_neighbors.
  unfold Neighborhood.fetchNeighbors, Neighborhood.filteredNeighbors.
  cbn [JS.bind Get lookup String.eqb Ascii.eqb Bool.eqb].
  rewrite array_filter_objects; [reflexivity|].
  apply Forall_forall. intros v Hv. apply in_map_iff in Hv as (r & <- & _).
  unfold Vocabulary.wire_record, Vocabulary.record_object. rewrite json_VObj. eauto.
Qed.

(** X19.  A row is listed exactly when its [Full Name] or its Slack full name
    is truthy. *)
Theorem listed_iff_named (r : record) :
  named (wire_record r)
  = truthy (field r "Full Name") || truthy (field r "Full Name (from slackNeighbor)").
Proof.
  unfold named, Neighborhood.has_name, Vocabulary.wire_record.
  destruct (record_object r) as [| | | | | |o] eqn:E; try discriminate.
  pose proof (record_object_NoDup r o E) as Hnd.
  rewrite !(Get_json o _ Hnd). cbn [JS.bind]. rewrite !truthy_json.
  unfold Vocabulary.record_object in E. injection E as <-.
  cbn [lookup String.eqb Ascii.eqb Bool.eqb].
  unfold or_else.
  destruct (truthy (field r "Full Name")) eqn:T1; rewrite ?T1; cbn [truthy orb];
    [reflexivity|].
  destruct (truthy (field r "Full Name (from slackNeighbor)")) eqn:T2;
    rewrite ?T2; reflexivity.
Qed.

End Wire.

(** One neighbor with the code of the only airport of the table. *)
Lemma single_neighbor_dot (w slackId : value) (c : string) :
  Get w "airport" = Normal (VStr "sfo") ->
  Get w "slackId" = Normal slackId ->
  dot_color no_literal no_object_number w = Normal c ->
  AirportDots upper no_literal no_object_number [w] only_text_sfo
  = Normal [{| key := slackId;
               pos := latLonToVec3 NaN NaN default_radius;
               onClick := w;
               interactive := true;
               color := c |}].
Proof.
  intros Ha Hs Hc.
  assert (Eg : airportGroups upper [w] = Normal [("SFO", [w])]).
  { unfold airportGroups, reduce, group_neighbor. rewrite Ha. vm_compute. reflexivity. }
  assert (Ef : find_airport upper only_text_sfo "SFO" = Normal text_sfo_record).
  { vm_compute. reflexivity. }
  unfold AirportDots. rewrite Eg. cbn [JS.bind array_map map_from].
  unfold group_dots. rewrite Ef.
  cbn [JS.bind truthy text_sfo_record negb].
  change (Get text_sfo_record "lat") with (Normal (VStr "37.62")).
  cbn [JS.bind]. change (truthy (VStr "37.62")) with true. cbn [negb].
  change (Get text_sfo_record "lon") with (Normal (VStr "-122.38")).
  cbn [JS.bind]. change (truthy (VStr "-122.38")) with true. cbn [negb].
  cbn [List.length array_map map_from ToNumber]. unfold blinking_dot.
  rewrite Hs, Hc. cbn [JS.bind flat filter_Boolean map app].
  reflexivity.
Qed.

Lemma bare_Get k :
  Get (wire_record no_literal no_object_number bare_record) k
  = Normal (json (match lookup k (match record_object no_literal no_object_number
                                            bare_record with
                                  | VObj o => o
                                  | _ => []
                                  end) with
                  | Some e => e
                  | None => VUndefined
                  end)).
Proof.
  unfold Vocabulary.wire_record.
  destruct (record_object no_literal no_object_number bare_record)
    as [| | | | | |o] eqn:E; try discriminate.
  apply Get_json. exact (record_object_NoDup _ _ _ _ E).
Qed.

Lemma bare_color :
  dot_color no_literal no_object_number
            (wire_record no_literal no_object_number bare_record)
  = Normal "red".
Proof.
  unfold dot_color. rewrite !bare_Get.
  unfold Vocabulary.record_object.
  cbn [lookup String.eqb Ascii.eqb Bool.eqb json JS.bind truthy].
  change (field bare_record "totalTimeHackatimeHours") with VUndefined.
  unfold or_else. cbn [truthy ToNumber].
  rewrite round_zero. cbn [json]. unfold ge_num. cbn [ToNumber].
  rewrite nge_Num_lt by lra. reflexivity.
Qed.

Lemma bare_globe :
  GlobePage.airport_dots upper no_literal no_object_number
    (GlobePage.neighbors_after_fetch
       (Normal (json (body (handler no_literal no_object_number "GET"
                                    (Normal [bare_record]))))))
    only_text_sfo = Normal [bare_dot].
Proof.
  unfold Api.handler. rewrite String.eqb_refl. cbn [negb JS.bind].
  rewrite map_records_objects. cbn [body]. rewrite json_neighbors.
  unfold GlobePage.neighbors_after_fetch.
  cbn [JS.bind Get lookup String.eqb Ascii.eqb Bool.eqb or_else truthy map].
  unfold GlobePage.airport_dots, bare_dot.
  apply single_neighbor_dot; [| |exact bare_color]; rewrite bare_Get; reflexivity.
Qed.

Lemma globe_of_route_witness :
  GlobePage.airport_dots upper no_literal no_object_number
    (GlobePage.neighbors_after_fetch
       (Normal (json (body (handler no_literal no_object_number "GET"
                                    (Normal [bare_record]))))))
    only_text_sfo = Normal [bare_dot] /\
  Forall (fun d => color d <> "#00ff00" /\
                   exists records r,
                     Normal [bare_record] = Normal records /\ In r records /\
                     onClick d = wire_record no_literal no_object_number r /\
                     dot_of no_literal no_object_number
                            (wire_record no_literal no_object_number r) d)
         [bare_dot] /\
  (if Nat.eqb (status (handler no_literal no_object_number "GET" (Normal [bare_record])))
              200
   then True else [bare_dot] = []).
Proof.
  split; [exact bare_globe|].
  apply (globe_of_route upper no_literal no_object_number "GET" (Normal [bare_record])
           only_text_sfo [bare_dot]).
  exact bare_globe.
Defined.

End WireFacts.

(* ================================================================== *)
(** * The list page: sorting and names                                *)
(* ================================================================== *)

Module SortFacts.
Import Neighborhood Persons Vocabulary NumberFacts MarkerFacts.

(** *** Insertion with a comparator that is a difference of keys *)

Section Insertion.
Variable cmp : value -> value -> completion number.
Variable k : value -> R.

#[local] Abbreviation by_key := (by_key cmp k).
#[local] Abbreviation has_key := (has_key k).

Lemma by_key_tail x l : by_key (x :: l) -> by_key l.
Proof. intros H a b Ha Hb. apply H; now right. Qed.

Lemma insert_sorted x l :
  by_key (x :: l) ->
  StronglySorted (fun a b => (k b <= k a)%R) l ->
  exists l',
    insert cmp x l = Normal l' /\
    Permutation (x :: l) l' /\
    StronglySorted (fun a b => (k b <= k a)%R) l'.
Proof.
  induction l as [|y l IH]; intros Hk Hs.
  - exists [x]. cbn. repeat split; [apply Permutation_refl|].
    constructor; constructor.
  - cbn [insert]. rewrite (Hk x y) by (cbn; auto). cbn [JS.bind positive].
    inversion Hs as [|? ? Hs' Hall]; subst.
    destruct (Rgt_dec (k y - k x) 0) as [Hgt|Hle].
    + assert (Hk' : by_key (x :: l)).
      { intros a b Ha Hb. apply Hk; cbn in *; tauto. }
      destruct (IH Hk' Hs') as (l' & -> & Hp & Hs''). cbn [JS.bind].
      exists (y :: l'). split; [reflexivity|]. split.
      * rewrite perm_swap. now constructor.
      * constructor; [exact Hs''|].
        eapply Permutation_Forall; [exact Hp|].
        constructor; [lra | exact Hall].
    + exists (x :: y :: l). split; [reflexivity|]. split; [apply Permutation_refl|].
      constructor; [exact Hs|].
      constructor; [lra|].
      eapply Forall_impl; [|exact Hall]. intros a Ha. cbn beta in *. lra.
Qed.

Lemma insertion_sort_sorted l :
  by_key l ->
  exists l',
    insertion_sort cmp l = Normal l' /\
    Permutation l l' /\
    StronglySorted (fun a b => (k b <= k a)%R) l'.
Proof.
  induction l as [|x l IH]; intros Hk.
  - exists []. repeat split; constructor.
  - destruct (IH (by_key_tail _ _ Hk)) as (s & Es & Hp & Hs).
    cbn [insertion_sort]. rewrite Es. cbn [JS.bind].
    assert (Hk' : by_key (x :: s)).
    { intros a b Ha Hb. apply Hk.
      - destruct Ha as [<-|Ha]; [now left|]. right.
        eapply Permutation_in; [symmetry; exact Hp | exact Ha].
      - destruct Hb as [<-|Hb]; [now left|]. right.
        eapply Permutation_in; [symmetry; exact Hp | exact Hb]. }
    destruct (insert_sorted x s Hk' Hs) as (l' & El & Hp' & Hs').
    exists l'. split; [exact El|]. split; [|exact Hs'].
    eapply Permutation_trans; [|exact Hp']. now constructor.
Qed.

Lemma insert_stable c x l : forall l',
  by_key (x :: l) ->
  insert cmp x l = Normal l' ->
  filter (has_key c) l' = filter (has_key c) (x :: l).
Proof.
  induction l as [|y l IH]; intros l' Hk.
  - cbn [insert]. now intros [= <-].
  - cbn [insert]. rewrite (Hk x y) by (cbn; auto). cbn [JS.bind positive].
    destruct (Rgt_dec (k y - k x) 0) as [Hgt|Hle].
    + assert (Hk' : by_key (x :: l)).
      { intros a b Ha Hb. apply Hk; cbn in *; tauto. }
      destruct (insert cmp x l) as [r|] eqn:Er; cbn [JS.bind]; [|discriminate].
      intros [= <-]. specialize (IH r Hk' eq_refl).
      cbn [filter] in *. rewrite IH. unfold has_key.
      destruct (Req_dec_T (k y) c), (Req_dec_T (k x) c); try reflexivity. lra.
    + now intros [= <-].
Qed.

Lemma insertion_sort_stable c l : forall l',
  by_key l ->
  insertion_sort cmp l = Normal l' ->
  filter (has_key c) l' = filter (has_key c) l.
Proof.
  induction l as [|x l IH]; intros l' Hk.
  - cbn. now intros [= <-].
  - destruct (insertion_sort_sorted l (by_key_tail _ _ Hk)) as (s & Es & Hp & _).
    cbn [insertion_sort]. rewrite Es. cbn [JS.bind]. intros Hi.
    assert (Hk' : by_key (x :: s)).
    { intros a b Ha Hb. apply Hk.
      - destruct Ha as [<-|Ha]; [now left|]. right.
        eapply Permutation_in; [symmetry; exact Hp | exact Ha].
      - destruct Hb as [<-|Hb]; [now left|]. right.
        eapply Permutation_in; [symmetry; exact Hp | exact Hb]. }
    rewrite (insert_stable c x s l' Hk' Hi). cbn [filter].
    now rewrite (IH s (by_key_tail _ _ Hk) Es).
Qed.

End Insertion.

(** On elements that are not [undefined] the comparator decides. *)
Lemma SortCompare_defined cmp a b :
  defined a = true -> defined b = true -> SortCompare cmp a b = cmp a b.
Proof. destruct a, b; cbn; intros; try discriminate; reflexivity. Qed.

Lemma by_key_SortCompare cmp k l :
  forallb defined l = true -> by_key cmp k l -> by_key (SortCompare cmp) k l.
Proof.
  intros Hd Hk a b Ha Hb. rewrite forallb_forall in Hd.
  rewrite SortCompare_defined by now apply Hd. now apply Hk.
Qed.

(** An [undefined] element goes behind every other element, whatever the
    comparator. *)
Lemma insert_undefined cmp ds us :
  forallb defined ds = true ->
  forallb is_undefined us = true ->
  insert (SortCompare cmp) VUndefined (ds ++ us) = Normal (ds ++ VUndefined :: us).
Proof.
  intros Hd Hu. induction ds as [|y ds IH].
  - destruct us as [|u us]; [reflexivity|].
    cbn in Hu. apply andb_prop in Hu as [Hu _].
    destruct u; try discriminate. cbn.
    destruct (Rgt_dec 0 0); [lra | reflexivity].
  - cbn in Hd. apply andb_prop in Hd as [Hy Hd].
    cbn [app insert].
    assert (E : SortCompare cmp VUndefined y = Normal (Num 1)).
    { destruct y; try discriminate; reflexivity. }
    rewrite E. cbn [JS.bind positive].
    destruct (Rgt_dec 1 0); [|lra].
    rewrite (IH Hd). reflexivity.
Qed.

(** With a comparator that always answers 0 an element that is not
    [undefined] stays in front. *)
Lemma insert_constant cmp x l :
  (forall a b, cmp a b = Normal (Num 0)) ->
  defined x = true ->
  insert (SortCompare cmp) x l = Normal (x :: l).
Proof.
  intros Hc Hx. destruct l as [|y l]; [reflexivity|].
  cbn [insert].
  assert (E : exists v, SortCompare cmp x y = Normal (Num v) /\ (v <= 0)%R).
  { destruct x; try discriminate;
      (destruct y; cbn;
       [exists (-1)%R; split; [reflexivity | lra]
       | rewrite Hc; exists 0%R; split; [reflexivity | lra] ..]). }
  destruct E as (v & -> & Hv). cbn [JS.bind positive].
  destruct (Rgt_dec v 0); [lra | reflexivity].
Qed.

(** A comparator that always answers 0 keeps the order of the elements,
    but for the [undefined] ones, which go last. *)
Lemma array_sort_constant cmp l :
  (forall a b, cmp a b = Normal (Num 0)) ->
  array_sort cmp l = Normal (filter defined l ++ filter is_undefined l).
Proof.
  intros Hc. unfold array_sort. induction l as [|x l IH]; [reflexivity|].
  cbn [insertion_sort]. rewrite IH. cbn [JS.bind filter].
  destruct (defined x) eqn:Dx.
  - assert (Ux : is_undefined x = false).
    { unfold defined in Dx. now destruct (is_undefined x). }
    rewrite Ux. now apply insert_constant.
  - assert (Ux : is_undefined x = true).
    { unfold defined in Dx. now destruct (is_undefined x). }
    rewrite Ux. destruct x; try discriminate.
    apply insert_undefined.
    + apply forallb_forall. intros a Ha. now apply filter_In in Ha.
    + apply forallb_forall. intros a Ha. now apply filter_In in Ha.
Qed.

Lemma filter_all (A : Type) (p : A -> bool) (l : list A) :
  forallb p l = true -> filter p l = l.
Proof.
  induction l as [|a l IH]; [reflexivity|].
  cbn. destruct (p a); [|discriminate]. cbn. intros H. now rewrite IH.
Qed.

Lemma filter_none (A : Type) (p q : A -> bool) (l : list A) :
  (forall a, p a = negb (q a)) -> forallb p l = true -> filter q l = [].
Proof.
  intros Hpq. induction l as [|a l IH]; [reflexivity|].
  cbn. rewrite Hpq. destruct (q a); [discriminate|]. cbn. exact IH.
Qed.

Lemma StronglySorted_weaken (P Q : value -> value -> Prop) l :
  (forall a b, In a l -> In b l -> P a b -> Q a b) ->
  StronglySorted P l -> StronglySorted Q l.
Proof.
  intros H Hs. induction Hs as [|a l Hs IH Hall]; constructor.
  - apply IH. intros x y Hx Hy. apply H; now right.
  - apply Forall_forall. intros b Hb. rewrite Forall_forall in Hall.
    apply H; [now left | now right | now apply Hall].
Qed.

Section Sorting.
Variable StringToNumber : string -> number.
Variable ObjectToNumber : value -> number.

#[local] Abbreviation compare := (compare StringToNumber ObjectToNumber).
#[local] Abbreviation sortedNeighbors := (sortedNeighbors StringToNumber ObjectToNumber).
#[local] Abbreviation field_number := (field_number StringToNumber ObjectToNumber).
#[local] Abbreviation is_number := (is_number StringToNumber ObjectToNumber).
#[local] Abbreviation in_order := (in_order StringToNumber ObjectToNumber).
#[local] Abbreviation key_number := (key_number StringToNumber ObjectToNumber).
#[local] Abbreviation key_is := (key_is StringToNumber ObjectToNumber).
#[local] Abbreviation Number := (ToNumber StringToNumber ObjectToNumber).

Lemma is_number_Get key n :
  is_number key n = true ->
  exists v, Get n key = Normal v /\ Number v = Num (key_number key n).
Proof.
  unfold Neighborhood.is_number, Vocabulary.key_number, Neighborhood.field_number.
  destruct (Get n key) as [v|]; [|discriminate].
  destruct (ToNumber StringToNumber ObjectToNumber v) eqn:E; [discriminate|].
  intros _. exists v. now split.
Qed.

(** A neighbor with a number in a field is not [undefined]. *)
Lemma is_number_defined key l :
  forallb (is_number key) l = true -> forallb defined l = true.
Proof.
  rewrite !forallb_forall. intros H n Hn. specialize (H n Hn).
  destruct n; try reflexivity. discriminate.
Qed.

Lemma compare_by_key sortType key largest_first l :
  sort_order sortType = Some (key, largest_first) ->
  forallb (is_number key) l = true ->
  by_key (SortCompare (compare sortType))
         (fun n => if largest_first then key_number key n else (- key_number key n)%R) l.
Proof.
  intros Ho Hall. apply by_key_SortCompare; [now apply (is_number_defined key)|].
  intros a b Ha Hb.
  rewrite forallb_forall in Hall.
  destruct (is_number_Get key a (Hall a Ha)) as (va & Ea & Na).
  destruct (is_number_Get key b (Hall b Hb)) as (vb & Eb & Nb).
  unfold sort_order in Ho. unfold Neighborhood.compare.
  destruct (sortType =? "largestLogged"); [injection Ho as <- <-|
  destruct (sortType =? "smallestLogged"); [injection Ho as <- <-|
  destruct (sortType =? "largestChecked"); [injection Ho as <- <-|
  destruct (sortType =? "smallestChecked"); [injection Ho as <- <-|discriminate]]]];
    rewrite Ea, Eb; cbn [JS.bind]; rewrite Na, Nb; cbn [nsub lift2];
    do 2 f_equal; ring.
Qed.

(** X20.  With one of the four sort types, and when the field it sorts on is a
    number in every neighbor, the sorted list is a permutation of the
    neighbors in which the field never increases (largest first) or never
    decreases (smallest first). *)
Theorem sortedNeighbors_sorted (sortType key : string) (largest_first : bool)
        (neighbors : list value) :
  sort_order sortType = Some (key, largest_first) ->
  forallb (is_number key) neighbors = true ->
  exists sorted,
    sortedNeighbors sortType neighbors = Normal sorted /\
    Permutation neighbors sorted /\
    StronglySorted (in_order key largest_first) sorted.
Proof.
  intros Ho Hall.
  destruct (insertion_sort_sorted _ _ _ (compare_by_key _ _ _ _ Ho Hall))
    as (sorted & Es & Hp & Hs).
  exists sorted. split; [exact Es|]. split; [exact Hp|].
  eapply StronglySorted_weaken; [|exact Hs].
  intros a b Ha Hb Hab. cbn beta in Hab.
  rewrite forallb_forall in Hall.
  assert (Ia : is_number key a = true).
  { apply Hall. eapply Permutation_in; [symmetry; exact Hp | exact Ha]. }
  assert (Ib : is_number key b = true).
  { apply Hall. eapply Permutation_in; [symmetry; exact Hp | exact Hb]. }
  unfold Neighborhood.in_order, Neighborhood.is_number, Vocabulary.key_number in *.
  destruct (Neighborhood.field_number StringToNumber ObjectToNumber key a);
    [|discriminate].
  destruct (Neighborhood.field_number StringToNumber ObjectToNumber key b);
    [|discriminate].
  destruct largest_first; lra.
Qed.

(** X21.  The sort is stable: the neighbors that have the same number in the
    field keep the order they had. *)
Theorem sortedNeighbors_stable (sortType key : string) (largest_first : bool)
        (neighbors : list value) :
  sort_order sortType = Some (key, largest_first) ->
  forallb (is_number key) neighbors = true ->
  exists sorted,
    sortedNeighbors sortType neighbors = Normal sorted /\
    forall x, filter (key_is key x) sorted = filter (key_is key x) neighbors.
Proof.
  intros Ho Hall.
  pose proof (compare_by_key _ _ _ _ Ho Hall) as Hk.
  destruct (insertion_sort_sorted _ _ _ Hk) as (sorted & Es & Hp & _).
  exists sorted. split; [exact Es|]. intros x.
  pose proof (insertion_sort_stable _ _ (if largest_first then x else (- x)%R) _ _ Hk Es) as Hst.
  rewrite forallb_forall in Hall.
  assert (Hext : forall n, In n neighbors ->
            key_is key x n
            = has_key (fun n => if largest_first then key_number key n
                                else (- key_number key n)%R)
                      (if largest_first then x else (- x)%R) n).
  { intros n Hn. specialize (Hall n Hn).
    unfold Vocabulary.key_is, has_key, Vocabulary.key_number, Neighborhood.is_number in *.
    destruct (Neighborhood.field_number StringToNumber ObjectToNumber key n) as [y|];
      [|discriminate].
    destruct largest_first.
    - reflexivity.
    - destruct (Req_dec_T y x), (Req_dec_T (- y) (- x)); try reflexivity; lra. }
  set (g := has_key (fun n => if largest_first then key_number key n
                              else (- key_number key n)%R)
                    (if largest_first then x else (- x)%R)) in *.
  rewrite (filter_ext_in (key_is key x) g neighbors Hext).
  rewrite (filter_ext_in (key_is key x) g sorted); [exact Hst|].
  intros n Hn. apply Hext. eapply Permutation_in; [symmetry; exact Hp | exact Hn].
Qed.

(** X22.  With any other sort type the comparator always answers 0, and the
    sort keeps the order of the neighbors, except that it moves the
    elements that are [undefined] behind all the others; a list without
    an [undefined] element is returned as it is. *)
Theorem sortedNeighbors_unsorted (sortType : string) (neighbors : list value) :
  sort_order sortType = None ->
  sortedNeighbors sortType neighbors
  = Normal (filter defined neighbors ++ filter is_undefined neighbors) /\
  (if forallb defined neighbors
   then sortedNeighbors sortType neighbors = Normal neighbors
   else True).
Proof.
  intros Ho.
  assert (E : sortedNeighbors sortType neighbors
              = Normal (filter defined neighbors ++ filter is_undefined neighbors)).
  { apply array_sort_constant. intros a b.
    unfold sort_order in Ho. unfold Neighborhood.compare.
    destruct (sortType =? "largestLogged"); [discriminate|].
    destruct (sortType =? "smallestLogged"); [discriminate|].
    destruct (sortType =? "largestChecked"); [discriminate|].
    destruct (sortType =? "smallestChecked"); [discriminate|]. reflexivity. }
  split; [exact E|].
  destruct (forallb defined neighbors) eqn:Hd; [|exact I].
  rewrite E, (filter_all _ _ _ Hd), (filter_none _ defined is_undefined _ (fun a => eq_refl) Hd).
  now rewrite app_nil_r.
Qed.

End Sorting.

(** X23.  The text of a link is never empty, and for a neighbor that passed the
    filter it is the full name or, failing that, the Slack full name: the
    fallbacks to the Slack id and to "unnamed" are not reached in the
    list. *)
Theorem display_name_named (neighbor : value) :
  nullish neighbor = false ->
  exists fullName slackFullName text,
    Get neighbor "fullName" = Normal fullName /\
    Get neighbor "slackFullName" = Normal slackFullName /\
    display_name neighbor = Normal text /\
    truthy text = true /\
    (if named neighbor then text = or_else fullName slackFullName else True).
Proof.
  intros Hn.
  destruct (Get_total neighbor "fullName" Hn) as [f Ef].
  destruct (Get_total neighbor "slackFullName" Hn) as [s Es].
  destruct (Get_total neighbor "slackId" Hn) as [i Ei].
  exists f, s. unfold display_name, named, has_name. rewrite Ef. cbn [JS.bind].
  destruct (truthy f) eqn:Tf.
  - exists f. repeat split; try assumption. unfold or_else. now rewrite Tf.
  - rewrite Es. cbn [JS.bind]. destruct (truthy s) eqn:Ts.
    + exists s. repeat split; try assumption. unfold or_else. now rewrite Tf.
    + rewrite Ei. cbn [JS.bind]. eexists. repeat split.
      unfold or_else. destruct (truthy i) eqn:Ti; [exact Ti | reflexivity].
Qed.

Lemma sortedNeighbors_sorted_witness :
  (sort_order "largestLogged" = Some ("totalTimeHackatimeHours", true) /\
   forallb (is_number no_literal no_object_number "totalTimeHackatimeHours")
           [listed "Ada" 1 2; listed "Bob" 3 4] = true) /\
  exists sorted,
    sortedNeighbors no_literal no_object_number "largestLogged"
                    [listed "Ada" 1 2; listed "Bob" 3 4] = Normal sorted /\
    Permutation [listed "Ada" 1 2; listed "Bob" 3 4] sorted /\
    StronglySorted (in_order no_literal no_object_number "totalTimeHackatimeHours" true)
                   sorted.
Proof.
  split; [split; reflexivity|].
  apply (sortedNeighbors_sorted no_literal no_object_number
           "largestLogged" "totalTimeHackatimeHours" true
           [listed "Ada" 1 2; listed "Bob" 3 4]); reflexivity.
Defined.

Lemma sortedNeighbors_stable_witness :
  (sort_order "smallestChecked" = Some ("totalCheckedTime", false) /\
   forallb (is_number no_literal no_object_number "totalCheckedTime")
           [listed "Ada" 1 2; listed "Bob" 3 2] = true) /\
  exists sorted,
    sortedNeighbors no_literal no_object_number "smallestChecked"
                    [listed "Ada" 1 2; listed "Bob" 3 2] = Normal sorted /\
    forall x,
      filter (key_is no_literal no_object_number "totalCheckedTime" x) sorted
      = filter (key_is no_literal no_object_number "totalCheckedTime" x)
               [listed "Ada" 1 2; listed "Bob" 3 2].
Proof.
  split; [split; reflexivity|].
  apply (sortedNeighbors_stable no_literal no_object_number
           "smallestChecked" "totalCheckedTime" false
           [listed "Ada" 1 2; listed "Bob" 3 2]); reflexivity.
Defined.

Lemma sortedNeighbors_unsorted_witness :
  sort_order "byName" = None /\
  sortedNeighbors no_literal no_object_number "byName"
                  [listed "Bob" 3 4; VUndefined; listed "Ada" 1 2]
  = Normal [listed "Bob" 3 4; listed "Ada" 1 2; VUndefined].
Proof.
  split; [reflexivity|].
  apply (sortedNeighbors_unsorted no_literal no_object_number "byName"
           [listed "Bob" 3 4; VUndefined; listed "Ada" 1 2]).
  reflexivity.
Defined.

Lemma display_name_named_witness :
  nullish (listed "Ada" 1 2) = false /\
  exists fullName slackFullName text,
    Get (listed "Ada" 1 2) "fullName" = Normal fullName /\
    Get (listed "Ada" 1 2) "slackFullName" = Normal slackFullName /\
    display_name (listed "Ada" 1 2) = Normal text /\
    truthy text = true /\
    (if named (listed "Ada" 1 2) then text = or_else fullName slackFullName else True).
Proof.
  split; [reflexivity|].
  apply (display_name_named (listed "Ada" 1 2)). reflexivity.
Defined.

End SortFacts.
